(** * Final.py: the filter / aggregate / forecast pipeline of the dashboard

    A shallow embedding of the data transformations of [Final.py].  A pandas
    DataFrame is a list of rows in index order, a Series is a list of cells,
    and an uncaught Python exception is the left injection of a sum type.
    Numbers that Python holds in floats are modelled by exact rationals plus
    a distinguished not-a-number value. *)

From Stdlib Require Import String Ascii List Bool ZArith QArith Qfield Lia Lqa.
From Stdlib Require Import Permutation Sorted Finite.
Import ListNotations.

Local Open Scope string_scope.
Local Open Scope Z_scope.

(** ** Data model *)

(** A parsed [timestamp] cell ([pd.to_datetime]).  Only the calendar month is
    ever inspected by the script. *)
Record Timestamp := mkTimestamp {
  year : Z;
  month : Z;        (* 1 .. 12 *)
  day : Z;
  seconds : Z       (* time of day *)
}.

(** One row of [df]: the columns the script reads.  The file is the cleaned
    survey: no cell of these columns is missing. *)
Record Row := mkRow {
  country : string;
  gender : string;
  age : Z;
  treatment : string;
  family_history : string;
  timestamp : Timestamp
}.

Definition DataFrame := list Row.

(** ** Exceptions

    The script catches nothing, so an exception raised by a library call ends
    the run.  These are the three the modelled calls can raise. *)
Inductive exn :=
| ValueError            (* sklearn: an array with 0 samples; int(nan) *)
| KeyError (k : string) (* pandas: sort_values by a missing column *)
| TypeError.            (* pandas: mean of a text column *)

Definition result (A : Type) : Type := (exn + A)%type.
Definition ret {A} (a : A) : result A := inr a.
Definition raise {A} (e : exn) : result A := inl e.
Definition bind {A B} (m : result A) (k : A -> result B) : result B :=
  match m with
  | inl e => inl e
  | inr a => k a
  end.
Notation "x <- m ;; k" := (bind m (fun x => k))
  (at level 61, m at next level, right associativity).

(** A Python float as the script uses it: a rational, or [nan]. *)
Inductive pyfloat :=
| NaN
| Fin (q : Q).

(** ** Lines 15-46: the sidebar filters *)

(** [Series.isin(values)] on a text column. *)
Definition isin (x : string) (values : list string) : bool :=
  existsb (String.eqb x) values.

(** [Series.between(left, right)], inclusive on both sides. *)
Definition between (left right x : Z) : bool :=
  (left <=? x) && (x <=? right).

(** Lines 20-23: an empty multiselect falls back to the whole column. *)
Definition filtered_countries (df : DataFrame) (selected_countries : list string)
  : list string :=
  match selected_countries with
  | [] => map country df
  | _ :: _ => selected_countries
  end.

(** Lines 30-33. *)
Definition filtered_genders (df : DataFrame) (selected_genders : list string)
  : list string :=
  match selected_genders with
  | [] => map gender df
  | _ :: _ => selected_genders
  end.

(** Lines 42-46: boolean-mask indexing keeps the rows whose mask is true, in
    index order. *)
Definition filtered_data (df : DataFrame)
    (selected_countries selected_genders : list string) (age_filter : Z * Z)
  : DataFrame :=
  filter (fun r =>
            isin (country r) (filtered_countries df selected_countries)
            && isin (gender r) (filtered_genders df selected_genders)
            && between (fst age_filter) (snd age_filter) (age r))
         df.

(** Line 37: the slider bounds [int(df['age'].min()), int(df['age'].max())].
    On an empty column [min] is [nan] and [int] raises. *)
Definition age_bounds (df : DataFrame) : result (Z * Z) :=
  match map age df with
  | [] => raise ValueError
  | a :: rest => ret (fold_right Z.min a rest, fold_right Z.max a rest)
  end.

(** The distinct values of a column in order of first appearance
    ([Series.unique], and the key order of the hash table behind
    [value_counts]). *)
Fixpoint unique (l : list string) : list string :=
  match l with
  | [] => []
  | x :: xs => x :: filter (fun y => negb (y =? x)%string) (unique xs)
  end.

(** Lines 17 and 27: what the two multiselects offer,
    [df['country'].unique()] and [df['gender'].unique()]. *)
Definition country_options (df : DataFrame) : list string :=
  unique (map country df).

Definition gender_options (df : DataFrame) : list string :=
  unique (map gender df).

(** The filter as the specification words it: a set of countries and a set of
    genders, each unrestricted when empty, and an inclusive age range. *)
Record FilterSpec := mkFilterSpec {
  countries : list string;
  genders : list string;
  ageRange : Z * Z
}.

Definition satisfies (fs : FilterSpec) (r : Row) : Prop :=
  (countries fs = [] \/ In (country r) (countries fs))
  /\ (genders fs = [] \/ In (gender r) (genders fs))
  /\ fst (ageRange fs) <= age r <= snd (ageRange fs).

Definition satisfiesb (fs : FilterSpec) (r : Row) : bool :=
  (match countries fs with [] => true | _ => isin (country r) (countries fs) end)
  && (match genders fs with [] => true | _ => isin (gender r) (genders fs) end)
  && ((fst (ageRange fs) <=? age r) && (age r <=? snd (ageRange fs))).

(** A list obtained from another by dropping elements, order kept. *)
Inductive subseq {A : Type} : list A -> list A -> Prop :=
| subseq_nil : subseq [] []
| subseq_skip x l1 l2 : subseq l1 l2 -> subseq l1 (x :: l2)
| subseq_keep x l1 l2 : subseq l1 l2 -> subseq (x :: l1) (x :: l2).

(** ** Sorting as pandas does it

    [Series.sort_values] and [DataFrame.sort_values] on one column both go
    through [pandas.core.sorting.nargsort], which hands the keys to numpy's
    [argsort] with [kind='quicksort'] unless told otherwise.  Numpy promises
    of that kind only that the keys come out in ascending order; the order of
    equal keys is left to the algorithm.  The argsort is therefore a
    parameter of everything that sorts. *)

(** What numpy promises of every [argsort]: a permutation of the positions
    that reads the keys in ascending order. *)
Definition argsort_contract (argsort : list Z -> list nat) : Prop :=
  forall keys,
    Permutation (argsort keys) (seq 0 (length keys))
    /\ StronglySorted Z.le (map (fun i => nth i keys 0) (argsort keys)).

(** What only [kind='stable'] / [kind='mergesort'] promise in addition:
    equal keys keep their positions' order. *)
Definition argsort_stable (argsort : list Z -> list nat) : Prop :=
  forall keys,
    StronglySorted (fun i j => nth i keys 0 = nth j keys 0 -> (i < j)%nat)
                   (argsort keys).

(** Positional indexing [values[indexer]]. *)
Definition take {A : Type} (d : A) (l : list A) (indexer : list nat) : list A :=
  map (fun i => nth i l d) indexer.

(** [nargsort(items, kind, ascending)] for keys without missing values.
    For a descending sort pandas reverses the keys and the positions, sorts
    ascending, and reverses the outcome. *)
Definition nargsort (argsort : list Z -> list nat)
    (items : list Z) (ascending : bool) : list nat :=
  let idx := seq 0 (length items) in
  if ascending then take 0%nat idx (argsort items)
  else
    let non_nans := rev items in
    let non_nan_idx := rev idx in
    rev (take 0%nat non_nan_idx (argsort non_nans)).

Section InsertionSort.
Context {A : Type} (leb : A -> A -> bool).

Fixpoint insert (x : A) (l : list A) : list A :=
  match l with
  | [] => [x]
  | y :: l' => if leb x y then x :: l else y :: insert x l'
  end.

Definition isort (l : list A) : list A := fold_right insert [] l.
End InsertionSort.

(** An argsort that meets numpy's contract and is stable: it orders (key,
    position) pairs by key and resolves equal keys by ascending position. *)
Definition key_pos_leb (a b : Z * nat) : bool :=
  (fst a <? fst b) || ((fst a =? fst b) && (snd a <=? snd b)%nat).

Definition argsort_with (leb : Z * nat -> Z * nat -> bool) (keys : list Z)
  : list nat :=
  map snd (isort leb (combine keys (seq 0 (length keys)))).

Definition stable_argsort : list Z -> list nat := argsort_with key_pos_leb.

(** *** numpy's quicksort

    What [argsort(kind='quicksort')] runs on integer keys in numpy's portable
    code path ([npysort/quicksort.cpp], [aquicksort_]): an introsort on the
    array of positions.  Ranges of more than 17 positions are partitioned
    around a median of three; shorter ranges are finished by insertion sort;
    a range whose recursion budget is used up is finished by heapsort
    ([npysort/heapsort.cpp], [aheapsort_]).  [v] holds the keys, [a] the
    array of positions that is permuted in place, [pl], [pr], [pi], [pj]
    are offsets into [a]. *)
Section NumpyQuicksort.
Variable v : list Z.




















End NumpyQuicksort.


(** ** Lines 66-67: entries by country *)

Definition count_eq (x : string) (l : list string) : Z :=
  Z.of_nat (length (filter (String.eqb x) l)).

(** [Series.value_counts()]: one count per distinct value, sorted by count,
    largest first. *)
Definition value_counts (argsort : list Z -> list nat) (col : list string)
  : list (string * Z) :=
  let tally := map (fun k => (k, count_eq k col)) (unique col) in
  take ("", 0) tally (nargsort argsort (map snd tally) false).

(** [filtered_data['country'].value_counts().reset_index()] with the columns
    renamed to [country] and [entries]. *)
Definition country_counts (argsort : list Z -> list nat) (view : DataFrame)
  : list (string * Z) :=
  value_counts argsort (map country view).

(** ** Lines 79-85: family history by country *)

(** A frame indexed by country with one count column per label. *)
Record Crosstab := mkCrosstab {
  ct_columns : list string;
  ct_rows : list (string * list Z)
}.

(** Group keys and unstacked column labels come out sorted. *)
Definition sorted_unique (col : list string) : list string :=
  isort String.leb (unique col).

Definition count_pair (view : DataFrame) (c h : string) : Z :=
  Z.of_nat (length (filter (fun r => (country r =? c)%string
                                     && (family_history r =? h)%string) view)).

(** [groupby('country')['family_history'].value_counts().unstack(fill_value=0)]:
    a row per country of the view, a column per family-history label of the
    view, each cell the number of rows with that pair (0 where the pair does
    not occur). *)
Definition crosstab (view : DataFrame) : Crosstab :=
  let cols := sorted_unique (map family_history view) in
  {| ct_columns := cols;
     ct_rows := map (fun c => (c, map (count_pair view c) cols))
                    (sorted_unique (map country view)) |}.

Fixpoint index_of (k : string) (cols : list string) : option nat :=
  match cols with
  | [] => None
  | c :: cols' => if (c =? k)%string then Some 0%nat
                  else option_map S (index_of k cols')
  end.

(** The cell of a row in column number [j], and the whole column. *)
Definition cell (j : nat) (row : string * list Z) : Z := nth j (snd row) 0.

Definition column_values (j : nat) (t : Crosstab) : list Z :=
  map (cell j) (ct_rows t).

(** [DataFrame.sort_values(by=..., ascending=...)]: a label that is not a
    column raises [KeyError]. *)
Definition sort_values (argsort : list Z -> list nat) (t : Crosstab)
    (by_ : string) (ascending : bool) : result Crosstab :=
  match index_of by_ (ct_columns t) with
  | None => raise (KeyError by_)
  | Some j =>
      ret {| ct_columns := ct_columns t;
             ct_rows := take ("", []) (ct_rows t)
                          (nargsort argsort (column_values j t) ascending) |}
  end.

Definition head (n : nat) (t : Crosstab) : Crosstab :=
  {| ct_columns := ct_columns t; ct_rows := firstn n (ct_rows t) |}.

Definition family_history_by_country (argsort : list Z -> list nat)
    (view : DataFrame) : result Crosstab :=
  t <- sort_values argsort (crosstab view) "Yes" false ;;
  ret (head 10 t).


(** ** Lines 93-96: the three metrics *)

(** [options=['age', 'treatment', 'family_history']] *)
Inductive kpi_feature := kpi_age | kpi_treatment | kpi_family_history.

(** A column taken out of the frame: integers, or Python strings (dtype
    [object]). *)
Inductive Series :=
| IntSeries (cells : list Z)
| ObjSeries (cells : list string).

Definition getitem (view : DataFrame) (k : kpi_feature) : Series :=
  match k with
  | kpi_age => IntSeries (map age view)
  | kpi_treatment => ObjSeries (map treatment view)
  | kpi_family_history => ObjSeries (map family_history view)
  end.

Definition sumZ (l : list Z) : Z := fold_right Z.add 0 l.

(** [Series.mean()].  With no cells the mean is [nan] whatever the dtype.
    On strings pandas sums by concatenation and then refuses the sum as a
    number: [TypeError]. *)
Definition series_mean (s : Series) : result pyfloat :=
  match s with
  | IntSeries [] => ret NaN
  | IntSeries ((_ :: _) as cells) =>
      ret (Fin (inject_Z (sumZ cells) / inject_Z (Z.of_nat (length cells))))
  | ObjSeries [] => ret NaN
  | ObjSeries (_ :: _) => raise TypeError
  end.

(** Nearest integer, ties to even, of an exact rational. *)
Definition round_half_even (q : Q) : Z :=
  let n := Qnum q in
  let d := Z.pos (Qden q) in
  let f := n / d in
  let r2 := 2 * (n mod d) in
  if r2 <? d then f
  else if d <? r2 then f + 1
  else if Z.even f then f else f + 1.

(** [round(x, 2)]; [nan] stays [nan].  On a number this is the rounding of
    the exact rational: an idealisation, since the script rounds the float
    next to it, which can fall on the other side of a tie in the third
    decimal (18.225 is held as a float slightly above it). *)
Definition round2 (x : pyfloat) : pyfloat :=
  match x with
  | NaN => NaN
  | Fin q => Fin (inject_Z (round_half_even (q * 100)) / 100)
  end.

(** Line 94. *)
Definition total_entries (view : DataFrame) : Z := Z.of_nat (length view).

(** Line 95: [round(filtered_data[selected_kpi].mean(), 2)]. *)
Definition kpi_average (view : DataFrame) (selected_kpi : kpi_feature)
  : result pyfloat :=
  m <- series_mean (getitem view selected_kpi) ;;
  ret (round2 m).

(** The mean of a boolean series: the share of [True]; [nan] when empty. *)
Definition bool_mean (mask : list bool) : pyfloat :=
  match mask with
  | [] => NaN
  | _ :: _ =>
      Fin (inject_Z (Z.of_nat (length (filter (fun b => b) mask)))
           / inject_Z (Z.of_nat (length mask)))
  end.

Definition pymul (x : pyfloat) (k : Q) : pyfloat :=
  match x with
  | NaN => NaN
  | Fin q => Fin (q * k)
  end.

(** Line 96: [(filtered_data['treatment'] == 'Yes').mean() * 100], the
    number that the f-string then prints with one decimal; on a view with
    rows it is held here as the exact rational, without the rounding of the
    float division and multiplication. *)
Definition treatment_rate (view : DataFrame) : pyfloat :=
  pymul (bool_mean (map (fun r => (treatment r =? "Yes")%string) view)) 100.

(** ** Lines 118-125: monthly counts and the fitted line *)

(** Calendar months numbered consecutively. *)
Definition month_key (t : Timestamp) : Z := 12 * year t + (month t - 1).

Definition is_leap (y : Z) : bool :=
  ((y mod 4 =? 0) && negb (y mod 100 =? 0)) || (y mod 400 =? 0).

Definition days_in_month (y m : Z) : Z :=
  if m =? 2 then (if is_leap y then 29 else 28)
  else if (m =? 4) || (m =? 6) || (m =? 9) || (m =? 11) then 30
  else 31.

(** The label of a month bin: midnight of its last day. *)
Definition month_end (k : Z) : Timestamp :=
  let y := k / 12 in
  let m := k mod 12 + 1 in
  mkTimestamp y m (days_in_month y m) 0.

Definition count_in_month (view : DataFrame) (k : Z) : Z :=
  Z.of_nat (length (filter (fun r => month_key (timestamp r) =? k) view)).

(** [set_index('timestamp').resample('M')['treatment'].count()]: the months
    from that of the earliest row to that of the latest row form a regular
    grid of bins, one bin per calendar month whether or not a row falls in
    it, and each bin counts its rows.  No rows, no bins. *)
Definition resample_M_count (view : DataFrame) : list (Timestamp * Z) :=
  match map (fun r => month_key (timestamp r)) view with
  | [] => []
  | k :: ks =>
      let first := fold_right Z.min k ks in
      let last := fold_right Z.max k ks in
      map (fun i => let b := first + Z.of_nat i in
                    (month_end b, count_in_month view b))
          (seq 0 (Z.to_nat (last - first + 1)))
  end.

Module TimeData.
(** A row of [time_data] after line 119. *)
Record row := mk {
  timestamp : Timestamp;
  treatment : Z;
  month_index : Z
}.
End TimeData.

(** [np.arange(n)] *)
Definition arange (n : nat) : list Z := map Z.of_nat (seq 0 n).

(** Lines 118-119. *)
Definition time_data (view : DataFrame) : list TimeData.row :=
  let counts := resample_M_count view in
  map (fun p => TimeData.mk (fst (fst p)) (snd (fst p)) (snd p))
      (combine counts (arange (length counts))).

Definition sumQ (l : list Q) : Q := fold_right Qplus 0%Q l.

Definition meanQ (l : list Q) : Q := (sumQ l / inject_Z (Z.of_nat (length l)))%Q.

Record LinearModel := mkLinearModel {
  coef_ : Q;
  intercept_ : Q
}.

(** [LinearRegression().fit(X, y)] with one feature, in exact arithmetic.
    sklearn refuses an array without samples ([ValueError]).  Otherwise it
    centres [X] and [y], solves the least-squares problem for the slope
    (the minimum-norm solution, so slope 0 when the centred [X] vanishes)
    and sets the intercept so that the line passes through the means. *)
Definition LinearRegression_fit (X y : list Q) : result LinearModel :=
  match X with
  | [] => raise ValueError
  | _ :: _ =>
      let x_mean := meanQ X in
      let y_mean := meanQ y in
      let xc := map (fun x => x - x_mean)%Q X in
      let yc := map (fun v => v - y_mean)%Q y in
      let sxx := sumQ (map (fun x => x * x)%Q xc) in
      let sxy := sumQ (map (fun p => fst p * snd p)%Q (combine xc yc)) in
      let coef := if Qeq_bool sxx 0 then 0%Q else (sxy / sxx)%Q in
      ret {| coef_ := coef; intercept_ := (y_mean - coef * x_mean)%Q |}
  end.

Definition predict (model : LinearModel) (X : list Q) : list Q :=
  map (fun x => coef_ model * x + intercept_ model)%Q X.

Module Trend.
(** A row of [time_data] after line 125. *)
Record row := mk {
  timestamp : Timestamp;
  treatment : Z;
  month_index : Z;
  predicted_treatment : Q
}.
End Trend.

(** Lines 122-125. *)
Definition monthly_trend (view : DataFrame) : result (list Trend.row) :=
  let td := time_data view in
  let X := map (fun r => inject_Z (TimeData.month_index r)) td in
  let y := map (fun r => inject_Z (TimeData.treatment r)) td in
  model <- LinearRegression_fit X y ;;
  ret (map (fun p => Trend.mk (TimeData.timestamp (fst p))
                              (TimeData.treatment (fst p))
                              (TimeData.month_index (fst p))
                              (snd p))
           (combine td (predict model X))).

(** ** The run of the script

    The sidebar and the tabs are computed one after the other; the first
    exception ends the run, so what comes after it is never computed.  The
    slider bounds of line 37 come first; [age_filter] is the range the
    slider returns.  The widget and chart calls in between are taken to
    return. *)
Record Dashboard := mkDashboard {
  d_filtered_data : DataFrame;
  d_country_counts : list (string * Z);
  d_family_history_by_country : Crosstab;
  d_total_entries : Z;
  d_kpi_average : pyfloat;
  d_treatment_rate : pyfloat;
  d_time_data : list Trend.row
}.

Definition run (argsort : list Z -> list nat) (df : DataFrame)
    (selected_countries selected_genders : list string) (age_filter : Z * Z)
    (selected_kpi : kpi_feature) : result Dashboard :=
  bounds <- age_bounds df ;;
  let view := filtered_data df selected_countries selected_genders age_filter in
  let cc := country_counts argsort view in
  fh <- family_history_by_country argsort view ;;
  avg <- kpi_average view selected_kpi ;;
  trend <- monthly_trend view ;;
  ret (mkDashboard view cc fh (total_entries view) avg (treatment_rate view) trend).

(** ** Sample data *)

Definition sample_row (c : string) (fh : string) (y m : Z) : Row :=
  mkRow c "Male" 30 "Yes" fh (mkTimestamp y m 15 0).

(** Two countries with one "Yes" each, and a view without any "Yes". *)
Definition two_tied : DataFrame :=
  [sample_row "US" "Yes" 2014 1; sample_row "DE" "Yes" 2014 3].

Definition no_yes : DataFrame := [sample_row "DE" "No" 2014 4].


Definition one_month : DataFrame := [sample_row "US" "Yes" 2014 1].

Definition two_consecutive : DataFrame :=
  [sample_row "US" "Yes" 2014 1; sample_row "DE" "Yes" 2014 2;
   sample_row "US" "No" 2014 2].

(** Five answers: countries US, US, DE, IN, US with ages 22, 45, 30, 60, 19. *)
Definition survey : DataFrame :=
  [mkRow "US" "Male" 22 "Yes" "No" (mkTimestamp 2014 8 27 41369);
   mkRow "US" "Female" 45 "No" "Yes" (mkTimestamp 2014 8 27 41400);
   mkRow "DE" "Male" 30 "No" "No" (mkTimestamp 2014 8 28 3600);
   mkRow "IN" "Female" 60 "Yes" "Yes" (mkTimestamp 2014 9 1 0);
   mkRow "US" "Male" 19 "No" "No" (mkTimestamp 2015 2 21 7200)].

(** The example of the specification: counts 3, 5, 7 over three consecutive
    months. *)
Definition rising_view : DataFrame :=
  [sample_row "US" "Yes" 2014 1; sample_row "US" "No" 2014 1;
   sample_row "DE" "Yes" 2014 1;
   sample_row "US" "Yes" 2014 2; sample_row "US" "No" 2014 2;
   sample_row "DE" "Yes" 2014 2; sample_row "IN" "Yes" 2014 2;
   sample_row "IN" "No" 2014 2;
   sample_row "US" "Yes" 2014 3; sample_row "US" "No" 2014 3;
   sample_row "DE" "Yes" 2014 3; sample_row "IN" "Yes" 2014 3;
   sample_row "IN" "No" 2014 3; sample_row "CA" "No" 2014 3;
   sample_row "CA" "Yes" 2014 3].

(** * Theorems *)

(** ** Filters *)

Lemma isin_In x values : isin x values = true <-> In x values.
Proof.
  unfold isin. rewrite existsb_exists. split.
  - intros [y [Hy Heq]]. apply String.eqb_eq in Heq. now subst.
  - intros H. exists x. split; [assumption | apply String.eqb_refl].
Qed.

Lemma between_spec left right x :
  between left right x = true <-> left <= x <= right.
Proof. unfold between. rewrite andb_true_iff, !Z.leb_le. tauto. Qed.

Lemma satisfiesb_spec fs r : satisfiesb fs r = true <-> satisfies fs r.
Proof.
  unfold satisfiesb, satisfies.
  rewrite !andb_true_iff, !Z.leb_le.
  destruct (countries fs) as [|c cs] eqn:Hc, (genders fs) as [|g gs] eqn:Hg;
    rewrite ?isin_In; intuition (try discriminate; auto).
Qed.

Lemma filter_subseq {A} (p : A -> bool) (l : list A) : subseq (filter p l) l.
Proof.
  induction l as [|x l IH]; simpl; [constructor|].
  destruct (p x); now constructor.
Qed.

(** A row of [df] passes the country mask when nothing is selected, because
    the mask then tests membership in the row's own column. *)
Lemma isin_filtered_countries df sel r :
  In r df ->
  isin (country r) (filtered_countries df sel)
  = match sel with [] => true | _ => isin (country r) sel end.
Proof.
  intros Hin. destruct sel as [|c cs]; [|reflexivity].
  simpl. apply isin_In. now apply in_map.
Qed.

Lemma isin_filtered_genders df sel r :
  In r df ->
  isin (gender r) (filtered_genders df sel)
  = match sel with [] => true | _ => isin (gender r) sel end.
Proof.
  intros Hin. destruct sel as [|g gs]; [|reflexivity].
  simpl. apply isin_In. now apply in_map.
Qed.

Lemma filtered_data_filter df fs :
  filtered_data df (countries fs) (genders fs) (ageRange fs)
  = filter (satisfiesb fs) df.
Proof.
  unfold filtered_data. apply filter_ext_in. intros r Hin.
  rewrite (isin_filtered_countries df _ r Hin).
  rewrite (isin_filtered_genders df _ r Hin).
  reflexivity.
Qed.

(** C1: the filtered view is the dataset restricted to the rows that satisfy
    the three conjoined predicates of the filter (country in the set or the
    set empty, gender in the set or the set empty, age within the inclusive
    range), with multiplicity and in the dataset's order. *)
Theorem filtered_data_exactly_satisfying (df : DataFrame) (fs : FilterSpec) :
  let view := filtered_data df (countries fs) (genders fs) (ageRange fs) in
  view = filter (satisfiesb fs) df
  /\ (forall r, In r view <-> In r df /\ satisfies fs r)
  /\ subseq view df.
Proof.
  cbv zeta. rewrite filtered_data_filter. split; [reflexivity|]. split.
  - intros r. rewrite filter_In, satisfiesb_spec. tauto.
  - apply filter_subseq.
Qed.

Lemma fold_min_le a l x : In x (a :: l) -> fold_right Z.min a l <= x.
Proof.
  induction l as [|y l IH]; simpl.
  - intros [->|[]]. lia.
  - intros [->|[->|H]].
    + assert (fold_right Z.min x l <= x) by (apply IH; now left). lia.
    + lia.
    + assert (fold_right Z.min a l <= x) by (apply IH; now right). lia.
Qed.

Lemma fold_max_ge a l x : In x (a :: l) -> x <= fold_right Z.max a l.
Proof.
  induction l as [|y l IH]; simpl.
  - intros [->|[]]. lia.
  - intros [->|[->|H]].
    + assert (x <= fold_right Z.max x l) by (apply IH; now left). lia.
    + lia.
    + assert (x <= fold_right Z.max a l) by (apply IH; now right). lia.
Qed.

Lemma age_bounds_cover df lo hi r :
  age_bounds df = ret (lo, hi) -> In r df -> lo <= age r <= hi.
Proof.
  unfold age_bounds. intros Hb Hin.
  apply (in_map age) in Hin.
  destruct (map age df) as [|a rest]; [contradiction|].
  injection Hb as <- <-. split.
  - now apply fold_min_le.
  - now apply fold_max_ge.
Qed.

(** C5: with nothing selected for country and gender and the age slider set
    to the full range [min(age), max(age)] of the dataset, the filter returns
    the dataset unchanged. *)
Theorem filtered_data_identity (df : DataFrame) (lo hi : Z) :
  age_bounds df = ret (lo, hi) ->
  filtered_data df [] [] (lo, hi) = df.
Proof.
  intros Hb. unfold filtered_data.
  apply forallb_filter_id. apply forallb_forall. intros r Hin.
  rewrite (isin_filtered_countries df [] r Hin).
  rewrite (isin_filtered_genders df [] r Hin).
  simpl. apply between_spec. eapply age_bounds_cover; eassumption.
Qed.

(** ** Sorting *)

Section InsertionSortFacts.
Context {A : Type} (leb : A -> A -> bool).
Hypothesis leb_total : forall a b, leb a b = true \/ leb b a = true.
Hypothesis leb_trans :
  forall a b c, leb a b = true -> leb b c = true -> leb a c = true.

Lemma insert_perm x l : Permutation (insert leb x l) (x :: l).
Proof.
  induction l as [|y l IH]; simpl; [reflexivity|].
  destruct (leb x y); [reflexivity|].
  rewrite IH. apply perm_swap.
Qed.

Lemma isort_perm l : Permutation (isort leb l) l.
Proof.
  induction l as [|x l IH]; simpl; [reflexivity|].
  rewrite insert_perm. now constructor.
Qed.

Lemma insert_sorted x l :
  StronglySorted (fun a b => leb a b = true) l ->
  StronglySorted (fun a b => leb a b = true) (insert leb x l).
Proof.
  induction 1 as [|y l Hs IH Hy]; simpl.
  - repeat constructor.
  - destruct (leb x y) eqn:Hxy.
    + constructor; [now constructor|].
      constructor; [assumption|].
      eapply Forall_impl; [|exact Hy]. intros z Hz. eauto.
    + constructor; [assumption|].
      assert (Hyx : leb y x = true)
        by (destruct (leb_total x y); congruence).
      rewrite Forall_forall. intros z Hz.
      apply (Permutation_in _ (insert_perm x l)) in Hz.
      destruct Hz as [<-|Hz]; [assumption|].
      rewrite Forall_forall in Hy. auto.
Qed.

Lemma isort_sorted l : StronglySorted (fun a b => leb a b = true) (isort leb l).
Proof.
  induction l as [|x l IH]; simpl; [constructor|].
  now apply insert_sorted.
Qed.
End InsertionSortFacts.

(** Facts on [StronglySorted] used below. *)

Lemma StronglySorted_weaken {A} (R R' : A -> A -> Prop) l :
  (forall x y, In x l -> In y l -> R x y -> R' x y) ->
  StronglySorted R l -> StronglySorted R' l.
Proof.
  intros Himp Hs. induction Hs as [|a l Hs IH Ha]; constructor.
  - apply IH. intros x y Hx Hy. apply Himp; now right.
  - rewrite Forall_forall in *. intros y Hy.
    apply Himp; [now left | now right | auto].
Qed.

Lemma StronglySorted_and {A} (R R' : A -> A -> Prop) l :
  StronglySorted R l -> StronglySorted R' l ->
  StronglySorted (fun x y => R x y /\ R' x y) l.
Proof.
  induction 1 as [|a l Hs IH Ha]; intros Hs'; [constructor|].
  apply StronglySorted_inv in Hs'. destruct Hs' as [Hs' Ha'].
  constructor; [auto|].
  rewrite Forall_forall in *. auto.
Qed.

Lemma StronglySorted_map {A B} (f : A -> B) (R : B -> B -> Prop) l :
  StronglySorted (fun x y => R (f x) (f y)) l ->
  StronglySorted R (map f l).
Proof.
  induction 1 as [|a l Hs IH Ha]; simpl; constructor; [assumption|].
  rewrite Forall_forall in *. intros y Hy.
  apply in_map_iff in Hy. destruct Hy as [x [<- Hx]]. auto.
Qed.

Lemma StronglySorted_map_inv {A B} (f : A -> B) (R : B -> B -> Prop) l :
  StronglySorted R (map f l) ->
  StronglySorted (fun x y => R (f x) (f y)) l.
Proof.
  induction l as [|a l IH]; simpl; intros Hs; [constructor|].
  apply StronglySorted_inv in Hs. destruct Hs as [Hs Ha].
  constructor; [auto|].
  rewrite Forall_forall in *. intros y Hy. apply Ha. now apply in_map.
Qed.

Lemma StronglySorted_app {A} (R : A -> A -> Prop) l1 l2 :
  StronglySorted R l1 -> StronglySorted R l2 ->
  (forall x y, In x l1 -> In y l2 -> R x y) ->
  StronglySorted R (l1 ++ l2).
Proof.
  induction 1 as [|a l Hs IH Ha]; intros H2 Hc; simpl; [assumption|].
  constructor.
  - apply IH; [assumption|]. intros x y Hx Hy. apply Hc; [now right|assumption].
  - apply Forall_app. split; [assumption|].
    rewrite Forall_forall. intros y Hy. apply Hc; [now left|assumption].
Qed.

Lemma StronglySorted_rev {A} (R : A -> A -> Prop) l :
  StronglySorted R l -> StronglySorted (fun x y => R y x) (rev l).
Proof.
  induction 1 as [|a l Hs IH Ha]; simpl; [constructor|].
  apply StronglySorted_app; [assumption | repeat constructor |].
  intros x y Hx [<-|[]]. rewrite Forall_forall in Ha.
  apply Ha. now apply in_rev.
Qed.

Lemma In_firstn {A} n (l : list A) x : In x (firstn n l) -> In x l.
Proof.
  intros H. rewrite <- (firstn_skipn n l). apply in_or_app. now left.
Qed.



Lemma NoDup_StronglySorted_neq {A} (l : list A) :
  NoDup l -> StronglySorted (fun x y => x <> y) l.
Proof.
  induction 1 as [|a l Hni Hnd IH]; constructor; [assumption|].
  rewrite Forall_forall. intros y Hy ->. contradiction.
Qed.

(** The stable argsort meets numpy's contract. *)

Lemma key_pos_leb_iff a b :
  key_pos_leb a b = true
  <-> fst a < fst b \/ (fst a = fst b /\ (snd a <= snd b)%nat).
Proof.
  unfold key_pos_leb.
  rewrite orb_true_iff, andb_true_iff, Z.ltb_lt, Z.eqb_eq, Nat.leb_le.
  tauto.
Qed.

Lemma map_snd_combine {A B} (l : list A) (l' : list B) :
  length l = length l' -> map snd (combine l l') = l'.
Proof.
  revert l'. induction l as [|x l IH]; intros [|y l']; simpl;
    try discriminate; [reflexivity|].
  intros H. injection H as H. now rewrite IH.
Qed.

Lemma in_combine_seq (keys : list Z) s p :
  In p (combine keys (seq s (length keys))) ->
  (s <= snd p < s + length keys)%nat /\ fst p = nth (snd p - s) keys 0.
Proof.
  revert s. induction keys as [|k keys IH]; simpl; intros s; [tauto|].
  intros [<-|Hin]; simpl.
  - rewrite Nat.sub_diag. split; [lia | reflexivity].
  - apply IH in Hin. destruct Hin as [Hr ->]. split; [lia|].
    replace (snd p - s)%nat with (S (snd p - S s)) by lia. reflexivity.
Qed.

Section ArgsortWith.
Variable leb : Z * nat -> Z * nat -> bool.
Hypothesis leb_total : forall a b, leb a b = true \/ leb b a = true.
Hypothesis leb_trans :
  forall a b c, leb a b = true -> leb b c = true -> leb a c = true.
Hypothesis leb_key : forall a b, leb a b = true -> fst a <= fst b.

Lemma argsort_with_pairs keys p :
  In p (isort leb (combine keys (seq 0 (length keys)))) ->
  (snd p < length keys)%nat /\ fst p = nth (snd p) keys 0.
Proof.
  intros Hin. apply (Permutation_in _ (isort_perm leb _)) in Hin.
  apply in_combine_seq in Hin. rewrite Nat.sub_0_r in Hin.
  destruct Hin as [Hr Hk]. split; [lia | assumption].
Qed.

Lemma argsort_with_contract : argsort_contract (argsort_with leb).
Proof.
  intros keys. unfold argsort_with. split.
  - rewrite (isort_perm leb).
    rewrite map_snd_combine; [reflexivity | now rewrite length_seq].
  - rewrite map_map. apply StronglySorted_map.
    eapply StronglySorted_weaken;
      [| apply (isort_sorted leb leb_total leb_trans)].
    intros p q Hp Hq Hpq. cbv beta in Hpq.
    apply argsort_with_pairs in Hp, Hq.
    destruct Hp as [_ <-], Hq as [_ <-]. now apply leb_key.
Qed.
End ArgsortWith.

Lemma stable_argsort_contract : argsort_contract stable_argsort.
Proof.
  apply argsort_with_contract.
  - intros a b. rewrite !key_pos_leb_iff. lia.
  - intros a b c. rewrite !key_pos_leb_iff. lia.
  - intros a b. rewrite key_pos_leb_iff. lia.
Qed.

Lemma stable_argsort_stable : argsort_stable stable_argsort.
Proof.
  intros keys. unfold stable_argsort, argsort_with.
  set (L := isort key_pos_leb (combine keys (seq 0 (length keys)))).
  assert (Hnd : NoDup (map snd L)).
  { apply (Permutation_NoDup (l := seq 0 (length keys))); [|apply seq_NoDup].
    symmetry. apply (stable_argsort_contract keys). }
  apply StronglySorted_map.
  assert (Hs : StronglySorted (fun a b => key_pos_leb a b = true) L).
  { apply isort_sorted; [intros a b | intros a b c];
      rewrite !key_pos_leb_iff; lia. }
  apply NoDup_StronglySorted_neq, StronglySorted_map_inv in Hnd.
  eapply StronglySorted_weaken; [| apply (StronglySorted_and _ _ _ Hs Hnd)].
  intros p q Hp Hq [Hle Hne] Heq. cbv beta in Hle, Hne.
  apply key_pos_leb_iff in Hle.
  assert (Hp' : fst p = nth (snd p) keys 0).
  { apply (argsort_with_pairs key_pos_leb) in Hp; tauto. }
  assert (Hq' : fst q = nth (snd q) keys 0).
  { apply (argsort_with_pairs key_pos_leb) in Hq; tauto. }
  lia.
Qed.

(** ** Positional indexing and [nargsort] *)

Lemma take_seq_self {A} (d : A) (l : list A) :
  take d l (seq 0 (length l)) = l.
Proof.
  unfold take. induction l as [|x l IH]; simpl; [reflexivity|].
  f_equal. rewrite <- seq_shift, map_map. exact IH.
Qed.

Lemma take_perm {A} (d : A) (l : list A) indexer :
  Permutation indexer (seq 0 (length l)) -> Permutation (take d l indexer) l.
Proof.
  intros Hp. rewrite <- (take_seq_self d l) at 2.
  unfold take. now apply Permutation_map.
Qed.

Lemma take_map {A B} (f : A -> B) (d : A) (l : list A) indexer :
  map f (take d l indexer) = take (f d) (map f l) indexer.
Proof.
  unfold take. rewrite map_map. apply map_ext. intros i.
  symmetry. apply map_nth.
Qed.


Section NargsortFacts.
Variable argsort : list Z -> list nat.
Hypothesis argsort_ok : argsort_contract argsort.

Lemma argsort_in_range keys i :
  In i (argsort keys) -> (i < length keys)%nat.
Proof.
  intros Hin. destruct (argsort_ok keys) as [Hp _].
  apply (Permutation_in _ Hp) in Hin. apply in_seq in Hin. lia.
Qed.

(** What the descending [nargsort] does to the positions it gets back:
    position [j] of the reversed keys is position [n - 1 - j]. *)
Lemma nargsort_desc_unfold items :
  nargsort argsort items false
  = rev (map (fun j => length items - S j)%nat (argsort (rev items))).
Proof.
  unfold nargsort, take. f_equal. apply map_ext_in. intros j Hj.
  apply argsort_in_range in Hj. rewrite length_rev in Hj.
  rewrite rev_nth by now rewrite length_seq.
  rewrite length_seq. rewrite seq_nth by lia. reflexivity.
Qed.

Lemma nargsort_desc_perm items :
  Permutation (nargsort argsort items false) (seq 0 (length items)).
Proof.
  unfold nargsort. rewrite <- Permutation_rev.
  rewrite take_perm.
  - symmetry. apply Permutation_rev.
  - rewrite length_rev, length_seq, <- (length_rev items).
    apply argsort_ok.
Qed.

Lemma nargsort_desc_sorted items :
  StronglySorted (fun i j => nth j items 0 <= nth i items 0)
                 (nargsort argsort items false).
Proof.
  rewrite nargsort_desc_unfold.
  apply (StronglySorted_rev (fun i j => nth i items 0 <= nth j items 0)).
  apply StronglySorted_map.
  destruct (argsort_ok (rev items)) as [_ Hs].
  apply StronglySorted_map_inv in Hs.
  eapply StronglySorted_weaken; [|exact Hs].
  intros i j Hi Hj Hij. cbv beta in Hij.
  apply argsort_in_range in Hi, Hj. rewrite length_rev in Hi, Hj.
  rewrite !rev_nth in Hij by assumption. exact Hij.
Qed.

End NargsortFacts.

(** ** Entries by country *)

Lemma unique_In l x : In x (unique l) <-> In x l.
Proof.
  induction l as [|y l IH]; simpl; [tauto|].
  rewrite filter_In, IH, negb_true_iff, String.eqb_neq.
  destruct (String.eqb_spec x y); intuition congruence.
Qed.

Lemma unique_NoDup l : NoDup (unique l).
Proof.
  induction l as [|y l IH]; simpl; constructor.
  - rewrite filter_In, String.eqb_refl. intros [_ H]. discriminate.
  - now apply NoDup_filter.
Qed.

Lemma sumZ_perm l l' : Permutation l l' -> sumZ l = sumZ l'.
Proof. induction 1; simpl; lia. Qed.

Lemma isin_cons x k ks : isin x (k :: ks) = (x =? k)%string || isin x ks.
Proof. reflexivity. Qed.

Lemma count_isin_cons col k ks :
  ~ In k ks ->
  length (filter (fun x => isin x (k :: ks)) col)
  = (length (filter (String.eqb k) col)
     + length (filter (fun x => isin x ks) col))%nat.
Proof.
  intros Hk. induction col as [|x col IH]; [reflexivity|].
  cbn [filter]. rewrite isin_cons, (String.eqb_sym x k).
  destruct (String.eqb_spec k x) as [<-|Hne]; cbn [orb].
  - assert (Hf : isin k ks = false).
    { destruct (isin k ks) eqn:E; [|reflexivity].
      apply isin_In in E. contradiction. }
    rewrite Hf. cbn [length]. rewrite IH. reflexivity.
  - destruct (isin x ks); cbn [length]; rewrite IH; lia.
Qed.

(** Summing the tallies of distinct keys counts the cells that carry one of
    the keys. *)
Lemma sum_count_eq col ks :
  NoDup ks ->
  sumZ (map (fun k => count_eq k col) ks)
  = Z.of_nat (length (filter (fun x => isin x ks) col)).
Proof.
  induction 1 as [|k ks Hk Hnd IH].
  - simpl. induction col; simpl; auto.
  - rewrite count_isin_cons by assumption.
    change (sumZ (map (fun k => count_eq k col) (k :: ks)))
      with (count_eq k col + sumZ (map (fun k => count_eq k col) ks)).
    rewrite IH. unfold count_eq. lia.
Qed.

Lemma sum_count_eq_unique col :
  sumZ (map (fun k => count_eq k col) (unique col)) = Z.of_nat (length col).
Proof.
  rewrite sum_count_eq by apply unique_NoDup.
  rewrite forallb_filter_id; [reflexivity|].
  apply forallb_forall. intros x Hx. now apply isin_In, unique_In.
Qed.

Lemma value_counts_perm argsort col :
  argsort_contract argsort ->
  Permutation (value_counts argsort col)
              (map (fun k => (k, count_eq k col)) (unique col)).
Proof.
  intros Hc. unfold value_counts. apply take_perm.
  rewrite <- (length_map snd). now apply nargsort_desc_perm.
Qed.

(** C6: the entries of [country_counts] sum to the number of rows of the
    view; the table has one row per distinct country of the view, holding
    the number of the view's rows with that country. *)
Theorem country_counts_sum (argsort : list Z -> list nat) (view : DataFrame) :
  argsort_contract argsort ->
  sumZ (map snd (country_counts argsort view)) = total_entries view
  /\ Permutation (map fst (country_counts argsort view))
                 (unique (map country view))
  /\ (forall c n, In (c, n) (country_counts argsort view) ->
                  n = count_eq c (map country view)).
Proof.
  intros Hc. unfold country_counts, total_entries.
  pose proof (value_counts_perm argsort (map country view) Hc) as Hp.
  split; [|split].
  - rewrite (sumZ_perm _ _ (Permutation_map snd Hp)).
    rewrite map_map. simpl.
    rewrite sum_count_eq_unique. now rewrite length_map.
  - rewrite (Permutation_map fst Hp). rewrite map_map. simpl.
    now rewrite map_id.
  - intros c n Hin. apply (Permutation_in _ Hp) in Hin.
    apply in_map_iff in Hin. destruct Hin as [k [Heq _]].
    now injection Heq as <- <-.
Qed.

(** ** Sorting the rows of a frame by one column *)





Lemma StronglySorted_app_inv {A} (R : A -> A -> Prop) l1 l2 x y :
  StronglySorted R (l1 ++ l2) -> In x l1 -> In y l2 -> R x y.
Proof.
  induction l1 as [|a l1 IH]; simpl; intros Hs Hx Hy; [contradiction|].
  apply StronglySorted_inv in Hs. destruct Hs as [Hs Ha].
  destruct Hx as [->|Hx]; [|now apply IH].
  rewrite Forall_forall in Ha. apply Ha, in_or_app. now right.
Qed.

Section SortRows.
Context {R : Type} (d : R) (key : R -> Z).
Hypothesis key_default : key d = 0.
Variable argsort : list Z -> list nat.
Hypothesis argsort_ok : argsort_contract argsort.
Variable rows : list R.

Let indexer := nargsort argsort (map key rows) false.

Lemma indexer_perm : Permutation indexer (seq 0 (length rows)).
Proof.
  unfold indexer. rewrite <- (length_map key rows).
  now apply nargsort_desc_perm.
Qed.

Lemma key_nth i : nth i (map key rows) 0 = key (nth i rows d).
Proof. rewrite <- key_default. apply map_nth. Qed.

Lemma sorted_rows_perm : Permutation (take d rows indexer) rows.
Proof. apply take_perm, indexer_perm. Qed.

Lemma sorted_rows_desc :
  StronglySorted (fun r1 r2 => key r2 <= key r1) (take d rows indexer).
Proof.
  unfold take. apply StronglySorted_map.
  eapply StronglySorted_weaken;
    [| apply (nargsort_desc_sorted argsort argsort_ok (map key rows))].
  intros i j _ _. cbv beta. now rewrite !key_nth.
Qed.

End SortRows.

(** ** Family history by country *)

Lemma index_of_Some k cols j :
  index_of k cols = Some j -> (j < length cols)%nat /\ nth j cols "" = k.
Proof.
  revert j. induction cols as [|c cols IH]; simpl; intros j; [discriminate|].
  destruct (String.eqb_spec c k) as [->|Hne].
  - intros [= <-]. split; [lia | reflexivity].
  - destruct (index_of k cols) as [i|]; [|discriminate].
    intros [= <-]. destruct (IH i eq_refl). split; [lia | assumption].
Qed.

Lemma index_of_None k cols : index_of k cols = None <-> ~ In k cols.
Proof.
  induction cols as [|c cols IH]; simpl; [tauto|].
  destruct (String.eqb_spec c k) as [->|Hne].
  - split; [discriminate | tauto].
  - destruct (index_of k cols) as [i|]; simpl.
    + split; [discriminate|]. intros H. exfalso. apply H. right.
      destruct (in_dec string_dec k cols) as [Hin|Hnin]; [assumption|].
      apply IH in Hnin. discriminate.
    + split; [|reflexivity]. intros _ [Heq|Hin]; [contradiction|].
      now apply IH in Hin.
Qed.

Lemma sorted_unique_In col x : In x (sorted_unique col) <-> In x col.
Proof.
  unfold sorted_unique. rewrite <- (unique_In col). split; intros H.
  - apply (Permutation_in _ (isort_perm String.leb _)). exact H.
  - apply (Permutation_in _ (Permutation_sym (isort_perm String.leb _))).
    exact H.
Qed.

Lemma crosstab_columns_In view h :
  In h (ct_columns (crosstab view))
  <-> exists r, In r view /\ family_history r = h.
Proof.
  simpl. rewrite sorted_unique_In, in_map_iff.
  split; intros [r [H1 H2]]; exists r; tauto.
Qed.



(** Without a row whose family history is "Yes" the crosstab has no "Yes"
    column and the sort raises. *)
Lemma family_history_no_yes_raises argsort view :
  (forall r, In r view -> family_history r <> "Yes") ->
  family_history_by_country argsort view = raise (KeyError "Yes").
Proof.
  intros Hno. unfold family_history_by_country, sort_values.
  assert (Hn : index_of "Yes" (ct_columns (crosstab view)) = None).
  { apply index_of_None. rewrite crosstab_columns_In.
    intros [r [Hin Hy]]. exact (Hno r Hin Hy). }
  now rewrite Hn.
Qed.


(** C10: there is a non-empty view without any "Yes" family history, and on
    it the sort by the "Yes" column raises [KeyError] instead of reading the
    missing category as 0. *)
Theorem family_history_by_country_raises_without_yes :
  exists view : DataFrame,
    view <> []
    /\ (forall r, In r view -> family_history r <> "Yes")
    /\ forall argsort,
         family_history_by_country argsort view = raise (KeyError "Yes").
Proof.
  exists no_yes. split; [discriminate|].
  assert (Hno : forall r, In r no_yes -> family_history r <> "Yes").
  { intros r [<-|[]]. discriminate. }
  split; [exact Hno|]. intros argsort.
  now apply family_history_no_yes_raises.
Qed.

(** ** Monthly counts *)

Lemma month_key_month_end k : month_key (month_end k) = k.
Proof.
  unfold month_key, month_end. cbn [year month].
  pose proof (Z.div_mod k 12 ltac:(lia)). lia.
Qed.

Lemma combine_map_map {A B C} (g : A -> B) (h : A -> C) l :
  combine (map g l) (map h l) = map (fun x => (g x, h x)) l.
Proof. induction l; simpl; congruence. Qed.

Lemma fold_min_In a l : In (fold_right Z.min a l) (a :: l).
Proof.
  induction l as [|y l IH]; simpl; [now left|].
  destruct (Z.min_spec y (fold_right Z.min a l)) as [[_ ->]|[_ ->]].
  - right. now left.
  - destruct IH as [H|H]; [left | right; right]; assumption.
Qed.

Lemma fold_max_In a l : In (fold_right Z.max a l) (a :: l).
Proof.
  induction l as [|y l IH]; simpl; [now left|].
  destruct (Z.max_spec y (fold_right Z.max a l)) as [[_ ->]|[_ ->]].
  - destruct IH as [H|H]; [left | right; right]; assumption.
  - right. now left.
Qed.

(** The monthly table is a regular grid: row [i] is the [i]-th calendar
    month counted from the month of the earliest row of the view, whether or
    not the view has rows in it. *)
Lemma time_data_grid view :
  exists first n,
    time_data view
    = map (fun i => TimeData.mk (month_end (first + Z.of_nat i))
                                (count_in_month view (first + Z.of_nat i))
                                (Z.of_nat i))
          (seq 0 n)
    /\ (forall r, In r view ->
                  first <= month_key (timestamp r) < first + Z.of_nat n)
    /\ match view with
       | [] => n = 0%nat
       | _ :: _ =>
           exists r1 r2,
             In r1 view /\ In r2 view
             /\ month_key (timestamp r1) = first
             /\ month_key (timestamp r2) = first + Z.of_nat n - 1
       end.
Proof.
  unfold time_data, resample_M_count.
  destruct view as [|r0 view'] eqn:Hview.
  - exists 0, 0%nat. simpl. split; [reflexivity|]. split; [tauto | reflexivity].
  - rewrite <- Hview. set (f := fun r => month_key (timestamp r)).
    assert (Hmap : map f view = f r0 :: map f view') by now rewrite Hview.
    rewrite Hmap.
    set (first := fold_right Z.min (f r0) (map f view')).
    set (last := fold_right Z.max (f r0) (map f view')).
    assert (Hlo : forall r, In r view -> first <= f r).
    { intros r Hr. apply fold_min_le. rewrite <- Hmap. now apply in_map. }
    assert (Hhi : forall r, In r view -> f r <= last).
    { intros r Hr. apply fold_max_ge. rewrite <- Hmap. now apply in_map. }
    assert (Hr0 : In r0 view) by (rewrite Hview; now left).
    exists first, (Z.to_nat (last - first + 1)).
    split; [|split].
    + rewrite length_map, length_seq. unfold arange.
      rewrite combine_map_map, map_map. reflexivity.
    + intros r Hr. specialize (Hlo r Hr). specialize (Hhi r Hr).
      change (month_key (timestamp r)) with (f r). lia.
    + pose proof (fold_min_In (f r0) (map f view')) as Hmin.
      pose proof (fold_max_In (f r0) (map f view')) as Hmax.
      rewrite <- Hmap in Hmin, Hmax.
      apply in_map_iff in Hmin, Hmax.
      destruct Hmin as [r1 [H1 Hin1]], Hmax as [r2 [H2 Hin2]].
      exists r1, r2. repeat split; try assumption.
      fold (f r2). rewrite H2. fold last.
      specialize (Hlo r0 Hr0). specialize (Hhi r0 Hr0). lia.
Qed.

(** C2 (amended): the monthly table has exactly one row for every calendar
    month from the month of the earliest row of the view to the month of its
    latest row, in chronological order; a month in that span without rows of
    the view is present with count 0; month_index runs 0, 1, 2, ... over the
    rows and so equals the calendar distance from the first month. *)
Theorem time_data_one_row_per_calendar_month (view : DataFrame) :
  exists first n,
    time_data view
    = map (fun i => TimeData.mk (month_end (first + Z.of_nat i))
                                (count_in_month view (first + Z.of_nat i))
                                (Z.of_nat i))
          (seq 0 n)
    /\ (forall i, month_key (month_end (first + Z.of_nat i))
                  = first + Z.of_nat i)
    /\ (forall r, In r view ->
                  first <= month_key (timestamp r) < first + Z.of_nat n)
    /\ match view with
       | [] => n = 0%nat
       | _ :: _ =>
           exists r1 r2,
             In r1 view /\ In r2 view
             /\ month_key (timestamp r1) = first
             /\ month_key (timestamp r2) = first + Z.of_nat n - 1
       end.
Proof.
  destruct (time_data_grid view) as (first & n & Htd & Hrange & Hends).
  exists first, n. split; [assumption|]. split; [|split; assumption].
  intros i. apply month_key_month_end.
Qed.

(** ** The fitted line *)

(** Decides the guard of [LinearRegression_fit] once the month indexes are
    concrete numbers. *)
Ltac eval_fit_guard :=
  match goal with
  | |- context [Qeq_bool ?x ?y] =>
      let v := eval vm_compute in (Qeq_bool x y) in
      change (Qeq_bool x y) with v
  end;
  cbv iota.

Lemma count_in_month_all view k :
  (forall r, In r view -> month_key (timestamp r) = k) ->
  count_in_month view k = total_entries view.
Proof.
  intros H. unfold count_in_month, total_entries.
  rewrite forallb_filter_id; [reflexivity|].
  apply forallb_forall. intros r Hr. apply Z.eqb_eq. auto.
Qed.

(** C3 (amended): on the empty view the fit raises [ValueError] (no samples);
    on a non-empty view whose rows all fall in one calendar month nothing is
    raised: the result is the single row of that month, with month_index 0
    and a predicted count equal to the actual count. *)
Theorem monthly_trend_within_one_month (view : DataFrame) :
  (forall r1 r2, In r1 view -> In r2 view ->
                 month_key (timestamp r1) = month_key (timestamp r2)) ->
  match view with
  | [] => monthly_trend view = raise ValueError
  | r :: _ =>
      exists q,
        monthly_trend view
        = ret [Trend.mk (month_end (month_key (timestamp r)))
                        (total_entries view) 0 q]
        /\ (q == inject_Z (total_entries view))%Q
  end.
Proof.
  intros Hsame. destruct view as [|r view'] eqn:Hview; [reflexivity|].
  rewrite <- Hview in *.
  assert (Hr : In r view) by (rewrite Hview; now left).
  destruct (time_data_grid view) as (first & n & Htd & Hrange & Hends).
  rewrite Hview in Hends. rewrite <- Hview in Hends.
  destruct Hends as (r1 & r2 & Hin1 & Hin2 & H1 & H2).
  assert (Hfirst : first = month_key (timestamp r))
    by (rewrite <- H1; auto).
  assert (Hn : n = 1%nat).
  { rewrite (Hsame r2 r1 Hin2 Hin1), H1 in H2. lia. }
  subst n. cbn [seq map] in Htd. rewrite Z.add_0_r in Htd.
  rewrite count_in_month_all in Htd
    by (intros r' Hr'; rewrite Hfirst; auto).
  unfold monthly_trend. rewrite Htd, <- Hfirst.
  cbn [map TimeData.month_index TimeData.treatment TimeData.timestamp Z.of_nat].
  unfold LinearRegression_fit. eval_fit_guard.
  cbn [bind ret predict map combine fst snd coef_ intercept_
       TimeData.month_index TimeData.treatment TimeData.timestamp].
  eexists. split; [reflexivity|].
  unfold meanQ, sumQ. cbn [fold_right length]. field.
Qed.

(** C9 (amended): when the rows of the view fall in two consecutive calendar
    months, both of them present, the monthly table has exactly two rows and
    the fitted line passes through both: predicted equals actual. *)
Theorem monthly_trend_two_consecutive_months (view : DataFrame) (k : Z) :
  (exists r, In r view /\ month_key (timestamp r) = k) ->
  (exists r, In r view /\ month_key (timestamp r) = k + 1) ->
  (forall r, In r view ->
             month_key (timestamp r) = k \/ month_key (timestamp r) = k + 1) ->
  exists q0 q1,
    monthly_trend view
    = ret [Trend.mk (month_end k) (count_in_month view k) 0 q0;
           Trend.mk (month_end (k + 1)) (count_in_month view (k + 1)) 1 q1]
    /\ (q0 == inject_Z (count_in_month view k))%Q
    /\ (q1 == inject_Z (count_in_month view (k + 1)))%Q.
Proof.
  intros [ra [Hina Ha]] [rb [Hinb Hb]] Hall.
  destruct (time_data_grid view) as (first & n & Htd & Hrange & Hends).
  destruct view as [|r view'] eqn:Hview; [contradiction|].
  rewrite <- Hview in *.
  destruct Hends as (r1 & r2 & Hin1 & Hin2 & H1 & H2).
  pose proof (Hrange ra Hina) as Hra. pose proof (Hrange rb Hinb) as Hrb.
  pose proof (Hall r1 Hin1) as Hk1. pose proof (Hall r2 Hin2) as Hk2.
  assert (Hfirst : first = k) by lia.
  assert (Hn : n = 2%nat) by lia.
  rewrite Hfirst, Hn in Htd.
  cbn [seq map] in Htd. rewrite Z.add_0_r in Htd.
  change (Z.of_nat 1) with 1 in Htd.
  unfold monthly_trend. rewrite Htd.
  cbn [map TimeData.month_index TimeData.treatment TimeData.timestamp Z.of_nat
       Pos.of_succ_nat].
  unfold LinearRegression_fit. eval_fit_guard.
  cbn [bind ret predict map combine fst snd coef_ intercept_
       TimeData.month_index TimeData.treatment TimeData.timestamp].
  eexists _, _. split; [reflexivity|].
  unfold meanQ, sumQ. cbn [map combine fold_right length fst snd].
  split; field.
Qed.

(** ** The metrics *)

(** With a text column (treatment or family_history) selected as KPI
    feature, the average raises [TypeError] as soon as the view has a row. *)
Lemma kpi_average_categorical (view : DataFrame) (selected_kpi : kpi_feature) :
  selected_kpi <> kpi_age ->
  match view with
  | [] => kpi_average view selected_kpi = ret NaN
  | _ :: _ => kpi_average view selected_kpi = raise TypeError
  end.
Proof.
  intros Hk. destruct selected_kpi; [contradiction| |];
    destruct view; reflexivity.
Qed.

Lemma nargsort_nil argsort ascending :
  argsort_contract argsort -> nargsort argsort [] ascending = [].
Proof.
  intros Hc. destruct (Hc []) as [Hp _]. simpl in Hp.
  apply Permutation_sym, Permutation_nil in Hp.
  unfold nargsort. simpl. rewrite Hp. now destruct ascending.
Qed.

(** C4 (amended): on the empty view the three metrics are computed without an
    exception: the total is 0, and the treatment rate and the KPI average are
    [nan], the mean of an empty column, not 0.0; the table of entries by
    country is empty. *)
Theorem metrics_on_empty_view
    (argsort : list Z -> list nat) (selected_kpi : kpi_feature) :
  argsort_contract argsort ->
  total_entries [] = 0
  /\ treatment_rate [] = NaN
  /\ kpi_average [] selected_kpi = ret NaN
  /\ country_counts argsort [] = [].
Proof.
  intros Hc. repeat split.
  - now destruct selected_kpi.
  - unfold country_counts, value_counts. cbn [map unique].
    now rewrite nargsort_nil.
Qed.

(** ** The run as a whole *)

Lemma age_bounds_nonempty df : df <> [] -> exists b, age_bounds df = ret b.
Proof.
  intros Hne. unfold age_bounds. destruct df as [|r df']; [contradiction|].
  cbn [map]. eexists. reflexivity.
Qed.

(** When the filters leave no row of a dataset, the run ends in the overview
    tab: the metrics and the trend are never reached. *)
Lemma run_empty_view argsort df selected_countries selected_genders age_filter
    selected_kpi :
  df <> [] ->
  filtered_data df selected_countries selected_genders age_filter = [] ->
  run argsort df selected_countries selected_genders age_filter selected_kpi
  = raise (KeyError "Yes").
Proof.
  intros Hne He. unfold run.
  destruct (age_bounds_nonempty df Hne) as [b ->]. cbn [bind ret].
  rewrite He.
  rewrite family_history_no_yes_raises; [reflexivity|].
  intros r [].
Qed.

(** ** The specification's example *)

Example survey_us_20_50 :
  filtered_data survey ["US"] [] (20, 50)
  = [mkRow "US" "Male" 22 "Yes" "No" (mkTimestamp 2014 8 27 41369);
     mkRow "US" "Female" 45 "No" "Yes" (mkTimestamp 2014 8 27 41400)].
Proof. reflexivity. Qed.

(** ** Instances and counterexamples *)

(** C5 on the five sample answers, whose ages range over [19, 60]. *)
Lemma filtered_data_identity_witness :
  filtered_data survey [] [] (19, 60) = survey.
Proof. apply (filtered_data_identity survey 19 60). reflexivity. Defined.

(** C6 on the five sample answers under the stable argsort. *)
Lemma country_counts_sum_witness :
  sumZ (map snd (country_counts stable_argsort survey)) = total_entries survey
  /\ Permutation (map fst (country_counts stable_argsort survey))
                 (unique (map country survey))
  /\ (forall c n, In (c, n) (country_counts stable_argsort survey) ->
                  n = count_eq c (map country survey)).
Proof.
  apply (country_counts_sum stable_argsort survey).
  exact stable_argsort_contract.
Defined.


(** With the stable argsort the two tied countries keep the grouped table's
    order. *)
Example family_history_stable_order :
  argsort_stable stable_argsort
  /\ family_history_by_country stable_argsort two_tied
     = ret {| ct_columns := ["Yes"];
              ct_rows := [("DE", [1]); ("US", [1])] |}.
Proof. split; [exact stable_argsort_stable | reflexivity]. Qed.


(** C2, as stated, fails: a view with rows in January and March 2014 gets a
    row for February with count 0, and March gets month_index 2. *)
Lemma time_data_gap_month :
  time_data two_tied
  = [TimeData.mk (mkTimestamp 2014 1 31 0) 1 0;
     TimeData.mk (mkTimestamp 2014 2 28 0) 0 1;
     TimeData.mk (mkTimestamp 2014 3 31 0) 1 2]
  /\ ~ (forall row, In row (time_data two_tied) ->
                    exists r, In r two_tied
                              /\ month_key (timestamp r)
                                 = month_key (TimeData.timestamp row)).
Proof.
  split; [reflexivity|]. intros H.
  destruct (H (TimeData.mk (mkTimestamp 2014 2 28 0) 0 1)) as [r [Hin Hk]].
  - right. now left.
  - destruct Hin as [<-|[<-|[]]]; discriminate.
Qed.

(** C3 (amended) on a single answer. *)
Lemma monthly_trend_within_one_month_witness :
  exists q,
    monthly_trend one_month
    = ret [Trend.mk (month_end (month_key (mkTimestamp 2014 1 15 0)))
                    (total_entries one_month) 0 q]
    /\ (q == inject_Z (total_entries one_month))%Q.
Proof.
  apply (monthly_trend_within_one_month one_month).
  intros r1 r2 [<-|[]] [<-|[]]. reflexivity.
Defined.

(** C3, as stated, fails: a view within one calendar month gets a fitted
    row, not an error. *)
Lemma monthly_trend_one_month_no_error :
  monthly_trend one_month
  = ret [Trend.mk (mkTimestamp 2014 1 31 0) 1 0 1%Q].
Proof. reflexivity. Qed.

(** C9 (amended) on answers of January and February 2014. *)
Lemma monthly_trend_two_consecutive_months_witness :
  exists q0 q1,
    monthly_trend two_consecutive
    = ret [Trend.mk (month_end 24168) (count_in_month two_consecutive 24168)
                    0 q0;
           Trend.mk (month_end (24168 + 1))
                    (count_in_month two_consecutive (24168 + 1)) 1 q1]
    /\ (q0 == inject_Z (count_in_month two_consecutive 24168))%Q
    /\ (q1 == inject_Z (count_in_month two_consecutive (24168 + 1)))%Q.
Proof.
  apply (monthly_trend_two_consecutive_months two_consecutive 24168).
  - exists (sample_row "US" "Yes" 2014 1). split; [now left | reflexivity].
  - exists (sample_row "DE" "Yes" 2014 2).
    split; [right; now left | reflexivity].
  - intros r [<-|[<-|[<-|[]]]]; [left | right | right]; reflexivity.
Defined.

(** C9, as stated, fails: rows in exactly two distinct months that are not
    adjacent give three monthly counts 1, 0, 1, and the fitted line misses
    the first of them. *)
Lemma monthly_trend_two_months_gap_not_exact :
  nodup Z.eq_dec (map (fun r => month_key (timestamp r)) two_tied)
  = [24168; 24170]
  /\ exists q0 q1 q2,
       monthly_trend two_tied
       = ret [Trend.mk (mkTimestamp 2014 1 31 0) 1 0 q0;
              Trend.mk (mkTimestamp 2014 2 28 0) 0 1 q1;
              Trend.mk (mkTimestamp 2014 3 31 0) 1 2 q2]
       /\ (q0 == 2 # 3)%Q
       /\ ~ (q0 == inject_Z 1)%Q.
Proof.
  split; [reflexivity|].
  eexists _, _, _. split; [vm_compute; reflexivity|].
  split; [reflexivity | discriminate].
Qed.

(** C4 (amended) under the stable argsort. *)
Lemma metrics_on_empty_view_witness :
  total_entries [] = 0
  /\ treatment_rate [] = NaN
  /\ kpi_average [] kpi_age = ret NaN
  /\ country_counts stable_argsort [] = [].
Proof.
  apply (metrics_on_empty_view stable_argsort kpi_age).
  exact stable_argsort_contract.
Defined.

(** C4, as stated, fails: the treatment rate of the empty view is [nan], not
    0.0, and the trend on the empty view raises. *)
Lemma treatment_rate_empty_is_nan :
  treatment_rate [] = NaN
  /\ ~ (exists q, treatment_rate [] = Fin q /\ (q == 0)%Q)
  /\ monthly_trend [] = raise ValueError.
Proof.
  split; [reflexivity|]. split; [|reflexivity].
  intros [q [H _]]. discriminate.
Qed.


(** * Further properties of the pipeline *)

(** ** The sidebar *)

(** X1: Each multiselect offers every value of its column that occurs in the
    dataset, once, and nothing else. *)
Theorem multiselect_options_exactly_once (df : DataFrame) :
  NoDup (country_options df)
  /\ (forall c, In c (country_options df) <-> exists r, In r df /\ country r = c)
  /\ NoDup (gender_options df)
  /\ (forall g, In g (gender_options df) <-> exists r, In r df /\ gender r = g).
Proof.
  unfold country_options, gender_options.
  split; [apply unique_NoDup|]. split; [|split; [apply unique_NoDup|]].
  - intros c. rewrite unique_In, in_map_iff.
    split; intros [r [H1 H2]]; exists r; tauto.
  - intros g. rewrite unique_In, in_map_iff.
    split; intros [r [H1 H2]]; exists r; tauto.
Qed.

Lemma filter_all_true {A} (p : A -> bool) (l : list A) :
  (forall x, In x l -> p x = true) -> filter p l = l.
Proof.
  intros H. apply forallb_filter_id. now apply forallb_forall.
Qed.

(** X2: Applying the same filter to its own result changes nothing. *)
Theorem filtered_data_idempotent (df : DataFrame)
    (selected_countries selected_genders : list string) (age_filter : Z * Z) :
  let view := filtered_data df selected_countries selected_genders age_filter in
  filtered_data view selected_countries selected_genders age_filter = view.
Proof.
  cbv zeta.
  set (view := filtered_data df selected_countries selected_genders age_filter).
  unfold filtered_data at 1. apply filter_all_true. intros r Hr.
  rewrite (isin_filtered_countries view _ r Hr).
  rewrite (isin_filtered_genders view _ r Hr).
  unfold view, filtered_data in Hr. apply filter_In in Hr.
  destruct Hr as [Hin Hp].
  rewrite (isin_filtered_countries df _ r Hin) in Hp.
  rewrite (isin_filtered_genders df _ r Hin) in Hp.
  exact Hp.
Qed.

Lemma filter_subseq_impl {A} (p q : A -> bool) (l : list A) :
  (forall x, In x l -> p x = true -> q x = true) ->
  subseq (filter p l) (filter q l).
Proof.
  induction l as [|x l IH]; intros H; simpl; [constructor|].
  assert (IH' : subseq (filter p l) (filter q l)).
  { apply IH. intros y Hy. apply H. now right. }
  destruct (p x) eqn:Hp.
  - rewrite (H x (or_introl eq_refl) Hp). now constructor.
  - destruct (q x); [now constructor | assumption].
Qed.

(** X3: Widening the age slider only adds rows: the narrower view is the wider
    one with rows dropped, order kept. *)
Theorem filtered_data_age_monotone (df : DataFrame)
    (selected_countries selected_genders : list string) (lo hi lo' hi' : Z) :
  lo' <= lo -> hi <= hi' ->
  subseq (filtered_data df selected_countries selected_genders (lo, hi))
         (filtered_data df selected_countries selected_genders (lo', hi')).
Proof.
  intros Hlo Hhi. unfold filtered_data. apply filter_subseq_impl.
  intros r _. cbn [fst snd]. rewrite !andb_true_iff, !between_spec.
  intros [Hcg Ha]. split; [assumption | lia].
Qed.

Lemma filtered_data_age_monotone_witness :
  subseq (filtered_data survey [] [] (20, 50))
         (filtered_data survey [] [] (19, 60)).
Proof. apply (filtered_data_age_monotone survey [] [] 20 50 19 60); lia. Defined.

(** X4: Selecting every offered country and every offered gender has the same
    effect as selecting none. *)
Theorem filtered_data_select_all (df : DataFrame) (age_filter : Z * Z) :
  filtered_data df (country_options df) (gender_options df) age_filter
  = filtered_data df [] [] age_filter.
Proof.
  unfold filtered_data. apply filter_ext_in. intros r Hr.
  rewrite (isin_filtered_countries df (country_options df) r Hr).
  rewrite (isin_filtered_genders df (gender_options df) r Hr).
  rewrite (isin_filtered_countries df [] r Hr).
  rewrite (isin_filtered_genders df [] r Hr).
  assert (Hc : isin (country r) (country_options df) = true).
  { apply isin_In, unique_In. now apply in_map. }
  assert (Hg : isin (gender r) (gender_options df) = true).
  { apply isin_In, unique_In. now apply in_map. }
  destruct (country_options df), (gender_options df);
    rewrite ?Hc, ?Hg; reflexivity.
Qed.

(** X5: The slider bounds exist exactly for a non-empty dataset; they are ages
    of the dataset, the lower one not above the upper one, and every age
    lies between them. *)
Theorem age_bounds_spec (df : DataFrame) :
  match age_bounds df with
  | inl e => e = ValueError /\ df = []
  | inr (lo, hi) =>
      lo <= hi
      /\ (exists r, In r df /\ age r = lo)
      /\ (exists r, In r df /\ age r = hi)
      /\ (forall r, In r df -> lo <= age r <= hi)
  end.
Proof.
  unfold age_bounds. destruct df as [|r0 df'] eqn:Hdf; [now split|].
  rewrite <- Hdf.
  assert (Hmap : map age df = age r0 :: map age df') by now rewrite Hdf.
  rewrite Hmap. cbn [ret].
  pose proof (fold_min_In (age r0) (map age df')) as Hmin.
  pose proof (fold_max_In (age r0) (map age df')) as Hmax.
  rewrite <- Hmap in Hmin, Hmax. apply in_map_iff in Hmin, Hmax.
  destruct Hmin as [r1 [H1 Hin1]], Hmax as [r2 [H2 Hin2]].
  assert (Hall : forall r, In r df ->
            fold_right Z.min (age r0) (map age df') <= age r
            <= fold_right Z.max (age r0) (map age df')).
  { intros r Hr. apply (in_map age) in Hr. rewrite Hmap in Hr.
    split; [now apply fold_min_le | now apply fold_max_ge]. }
  split; [|split; [|split]].
  - assert (Hr0 : In r0 df) by (rewrite Hdf; now left).
    specialize (Hall r0 Hr0). lia.
  - now exists r1.
  - now exists r2.
  - exact Hall.
Qed.

(** ** Tallies *)

Lemma sumZ_map_add {A} (f g : A -> Z) l :
  sumZ (map (fun x => f x + g x) l) = sumZ (map f l) + sumZ (map g l).
Proof. induction l; simpl; lia. Qed.

Lemma sumZ_map_zero {A} (l : list A) : sumZ (map (fun _ => 0) l) = 0.
Proof. induction l; simpl; auto. Qed.

Section Partition.
Context {R K : Type} (eqb : K -> K -> bool).
Hypothesis eqb_eq : forall a b, eqb a b = true <-> a = b.
Variable key : R -> K.
Variable p : R -> bool.

(** Among distinct keys exactly one equals a key that is listed. *)
Lemma sum_indicator x ks :
  NoDup ks -> In x ks ->
  sumZ (map (fun k => if eqb x k then 1 else 0) ks) = 1.
Proof.
  induction 1 as [|k ks Hk Hnd IH]; intros Hin; [contradiction|].
  cbn [map sumZ fold_right]. fold (sumZ (map (fun k => if eqb x k then 1 else 0) ks)).
  destruct (eqb x k) eqn:E.
  - apply eqb_eq in E. subst k.
    assert (Hz : sumZ (map (fun k => if eqb x k then 1 else 0) ks) = 0).
    { clear IH Hnd Hin. induction ks as [|k ks IH]; [reflexivity|].
      cbn [map sumZ fold_right].
      fold (sumZ (map (fun k => if eqb x k then 1 else 0) ks)).
      destruct (eqb x k) eqn:E.
      - apply eqb_eq in E. subst k. exfalso. apply Hk. now left.
      - rewrite IH; [reflexivity|]. intros H. apply Hk. now right. }
    lia.
  - destruct Hin as [->|Hin].
    + assert (eqb x x = true) by now apply eqb_eq. congruence.
    + rewrite IH by assumption. reflexivity.
Qed.

(** Counting the rows that pass [p] key by key, over distinct keys that
    cover them, counts each such row once. *)
Lemma sum_filter_partition ks (v : list R) :
  NoDup ks ->
  (forall r, In r v -> p r = true -> In (key r) ks) ->
  sumZ (map (fun k => Z.of_nat (length (filter (fun r => p r && eqb (key r) k) v)))
            ks)
  = Z.of_nat (length (filter p v)).
Proof.
  intros Hnd. induction v as [|r v IH]; intros Hcov.
  - cbn [filter length]. apply sumZ_map_zero.
  - rewrite (map_ext
               (fun k => Z.of_nat (length (filter (fun r => p r && eqb (key r) k)
                                                  (r :: v))))
               (fun k => (if p r then (if eqb (key r) k then 1 else 0) else 0)
                         + Z.of_nat (length (filter (fun r => p r && eqb (key r) k)
                                                    v)))).
    + rewrite sumZ_map_add, IH by (intros r' Hr'; apply Hcov; now right).
      cbn [filter]. destruct (p r) eqn:Hp.
      * rewrite sum_indicator; [cbn [length]; lia | assumption |].
        apply Hcov; [now left | assumption].
      * rewrite sumZ_map_zero. reflexivity.
    + intros k. cbn [filter]. destruct (p r), (eqb (key r) k); cbn [andb length]; lia.
Qed.
End Partition.

Lemma count_eq_filter (c : string) (view : DataFrame) :
  count_eq c (map country view)
  = Z.of_nat (length (filter (fun r => (country r =? c)%string) view)).
Proof.
  unfold count_eq. rewrite filter_map_swap, length_map.
  f_equal. f_equal. apply filter_ext. intros r. apply String.eqb_sym.
Qed.

Lemma count_eq_pos x l : In x l -> 1 <= count_eq x l.
Proof.
  intros Hin. unfold count_eq.
  assert (Hf : In x (filter (String.eqb x) l)).
  { apply filter_In. split; [assumption | apply String.eqb_refl]. }
  destruct (filter (String.eqb x) l); [contradiction|]. cbn [length]. lia.
Qed.

(** ** Entries by country, continued *)

(** X6: The table of entries by country lists each country of the view once,
    with a count of at least 1, largest count first. *)
Theorem country_counts_descending (argsort : list Z -> list nat)
    (view : DataFrame) :
  argsort_contract argsort ->
  StronglySorted (fun a b => snd b <= snd a) (country_counts argsort view)
  /\ NoDup (map fst (country_counts argsort view))
  /\ Forall (fun a => 1 <= snd a /\ exists r, In r view /\ country r = fst a)
            (country_counts argsort view).
Proof.
  intros Hc.
  pose proof (value_counts_perm argsort (map country view) Hc) as Hp.
  split; [|split].
  - unfold country_counts, value_counts.
    apply (sorted_rows_desc ("", 0) snd eq_refl argsort Hc).
  - apply (Permutation_NoDup (l := unique (map country view)));
      [| apply unique_NoDup].
    symmetry. unfold country_counts.
    rewrite (Permutation_map fst Hp), map_map. simpl. now rewrite map_id.
  - rewrite Forall_forall. intros [c n] Hin.
    apply (Permutation_in _ Hp) in Hin. apply in_map_iff in Hin.
    destruct Hin as [k [[= <- <-] Hk]].
    apply (proj1 (unique_In _ _)) in Hk. cbn [fst snd].
    split; [now apply count_eq_pos|].
    apply in_map_iff in Hk. destruct Hk as [r [H1 H2]]. now exists r.
Qed.

Lemma country_counts_descending_witness :
  StronglySorted (fun a b => snd b <= snd a) (country_counts stable_argsort survey)
  /\ NoDup (map fst (country_counts stable_argsort survey))
  /\ Forall (fun a => 1 <= snd a /\ exists r, In r survey /\ country r = fst a)
            (country_counts stable_argsort survey).
Proof.
  apply (country_counts_descending stable_argsort survey).
  exact stable_argsort_contract.
Defined.

(** X7: With some countries selected, the table of entries by country of the
    filtered view lists selected countries only. *)
Theorem country_counts_within_selection (argsort : list Z -> list nat)
    (df : DataFrame) (selected_countries selected_genders : list string)
    (age_filter : Z * Z) :
  argsort_contract argsort ->
  selected_countries <> [] ->
  Forall (fun a => In (fst a) selected_countries)
         (country_counts argsort
            (filtered_data df selected_countries selected_genders age_filter)).
Proof.
  intros Hc Hsel. rewrite Forall_forall. intros [c n] Hin.
  apply (Permutation_in _ (value_counts_perm argsort _ Hc)) in Hin.
  apply in_map_iff in Hin. destruct Hin as [k [[= <- <-] Hk]].
  apply (proj1 (unique_In _ _)), in_map_iff in Hk. destruct Hk as [r [<- Hr]].
  unfold filtered_data in Hr. apply filter_In in Hr. destruct Hr as [Hin Hp].
  rewrite (isin_filtered_countries df _ r Hin) in Hp.
  destruct selected_countries as [|s sel]; [contradiction|].
  rewrite !andb_true_iff in Hp. cbn [fst]. apply isin_In. tauto.
Qed.

Lemma country_counts_within_selection_witness :
  Forall (fun a => In (fst a) ["US"])
         (country_counts stable_argsort (filtered_data survey ["US"] [] (20, 50))).
Proof.
  apply (country_counts_within_selection stable_argsort survey ["US"] [] (20, 50)).
  - exact stable_argsort_contract.
  - discriminate.
Defined.

(** ** The grouped table *)

Lemma string_leb_iff a b :
  (a <=? b)%string = true <-> (a ?= b)%string <> Gt.
Proof. unfold String.leb. destruct (a ?= b)%string; intuition congruence. Qed.

Lemma string_leb_trans : forall a b c,
  (a <=? b)%string = true -> (b <=? c)%string = true -> (a <=? c)%string = true.
Proof.
  intros a b c. rewrite !string_leb_iff. revert b c.
  induction a as [|x a IH]; intros [|y b] [|z c]; cbn [String.compare];
    try congruence.
  unfold Ascii.compare.
  destruct (N.compare_spec (N_of_ascii x) (N_of_ascii y)) as [Hxy|Hxy|Hxy],
           (N.compare_spec (N_of_ascii y) (N_of_ascii z)) as [Hyz|Hyz|Hyz],
           (N.compare_spec (N_of_ascii x) (N_of_ascii z)) as [Hxz|Hxz|Hxz];
    try congruence; try lia.
  apply IH.
Qed.

Lemma sorted_unique_NoDup col : NoDup (sorted_unique col).
Proof.
  apply (Permutation_NoDup (l := unique col)); [| apply unique_NoDup].
  symmetry. apply isort_perm.
Qed.

(** Group keys come out in strictly ascending order. *)
Lemma sorted_unique_ascending col :
  StronglySorted (fun a b => (a <? b)%string = true) (sorted_unique col).
Proof.
  pose proof (isort_sorted String.leb String.leb_total string_leb_trans
                (unique col)) as Hs.
  pose proof (NoDup_StronglySorted_neq _ (sorted_unique_NoDup col)) as Hn.
  eapply StronglySorted_weaken; [| apply (StronglySorted_and _ _ _ Hs Hn)].
  intros a b _ _ [Hle Hne]. cbv beta in Hle.
  unfold String.leb in Hle. unfold String.ltb.
  destruct (a ?= b)%string eqn:E; try congruence.
  apply String.compare_eq_iff in E. contradiction.
Qed.

(** X8: The table that is sorted on line 83 has one row per country of the view
    and one column per family-history label of the view, both in ascending
    order of the text. *)
Theorem crosstab_index_ascending (view : DataFrame) :
  StronglySorted (fun a b => (a <? b)%string = true)
                 (map fst (ct_rows (crosstab view)))
  /\ StronglySorted (fun a b => (a <? b)%string = true)
                    (ct_columns (crosstab view))
  /\ (forall c, In c (map fst (ct_rows (crosstab view)))
                <-> exists r, In r view /\ country r = c)
  /\ (forall h, In h (ct_columns (crosstab view))
                <-> exists r, In r view /\ family_history r = h).
Proof.
  cbn [crosstab ct_rows ct_columns]. rewrite map_map. cbn [fst]. rewrite map_id.
  split; [apply sorted_unique_ascending|].
  split; [apply sorted_unique_ascending|]. split.
  - intros c. rewrite sorted_unique_In, in_map_iff.
    split; intros [r [H1 H2]]; exists r; tauto.
  - intros h. rewrite sorted_unique_In, in_map_iff.
    split; intros [r [H1 H2]]; exists r; tauto.
Qed.

Lemma crosstab_row_total view row :
  In row (ct_rows (crosstab view)) ->
  length (snd row) = length (ct_columns (crosstab view))
  /\ Forall (fun n => 0 <= n) (snd row)
  /\ sumZ (snd row) = count_eq (fst row) (map country view).
Proof.
  cbn [crosstab ct_rows ct_columns]. intros Hrow.
  apply in_map_iff in Hrow. destruct Hrow as [c [<- _]]. cbn [fst snd].
  split; [apply length_map|]. split.
  - rewrite Forall_forall. intros n Hn. apply in_map_iff in Hn.
    destruct Hn as [h [<- _]]. unfold count_pair. lia.
  - rewrite count_eq_filter. unfold count_pair.
    apply (sum_filter_partition String.eqb String.eqb_eq family_history
             (fun r => (country r =? c)%string)).
    + apply sorted_unique_NoDup.
    + intros r Hr _. apply sorted_unique_In. now apply in_map.
Qed.

(** X9: Every row of the grouped table has one cell per column, none negative,
    and its cells add up to the number of rows of the view with that
    country. *)
Theorem crosstab_rows_total (view : DataFrame) :
  Forall (fun row =>
            length (snd row) = length (ct_columns (crosstab view))
            /\ Forall (fun n => 0 <= n) (snd row)
            /\ sumZ (snd row) = count_eq (fst row) (map country view))
         (ct_rows (crosstab view)).
Proof. rewrite Forall_forall. intros row. apply crosstab_row_total. Qed.

(** X10: The top-10 table exists exactly when some row of the view has family
    history "Yes"; otherwise the sort raises [KeyError]. *)
Theorem family_history_by_country_defined_iff
    (argsort : list Z -> list nat) (view : DataFrame) :
  ((exists t, family_history_by_country argsort view = ret t)
   <-> exists r, In r view /\ family_history r = "Yes")
  /\ (family_history_by_country argsort view = raise (KeyError "Yes")
      <-> forall r, In r view -> family_history r <> "Yes").
Proof.
  rewrite <- crosstab_columns_In.
  unfold family_history_by_country, sort_values.
  destruct (index_of "Yes" (ct_columns (crosstab view))) as [j|] eqn:Hj.
  - assert (Hin : In "Yes" (ct_columns (crosstab view))).
    { apply index_of_Some in Hj. destruct Hj as [Hlt Hnth].
      rewrite <- Hnth. now apply nth_In. }
    split; split.
    + intros _. exact Hin.
    + intros _. eexists. reflexivity.
    + discriminate.
    + intros Hno. exfalso. apply crosstab_columns_In in Hin.
      destruct Hin as [r [Hr Hy]]. exact (Hno r Hr Hy).
  - apply index_of_None in Hj. split; split.
    + intros [t Ht]. discriminate.
    + intros Hin. contradiction.
    + intros _ r Hr Hy. apply Hj, crosstab_columns_In. now exists r.
    + reflexivity.
Qed.

(** X11: When the top-10 table exists it has the columns of the grouped table and
    min(10, number of countries of the view) rows, each a row of the grouped
    table, no country twice; with at most 10 countries nothing is cut off. *)
Theorem family_history_by_country_rows
    (argsort : list Z -> list nat) (view : DataFrame) (t : Crosstab) :
  argsort_contract argsort ->
  family_history_by_country argsort view = ret t ->
  ct_columns t = ct_columns (crosstab view)
  /\ length (ct_rows t) = Nat.min 10 (length (country_options view))
  /\ NoDup (map fst (ct_rows t))
  /\ Forall (fun row =>
               In row (ct_rows (crosstab view))
               /\ sumZ (snd row) = count_eq (fst row) (map country view))
            (ct_rows t)
  /\ ((length (country_options view) <= 10)%nat ->
      Permutation (ct_rows t) (ct_rows (crosstab view))).
Proof.
  intros Hc. unfold family_history_by_country, sort_values.
  destruct (index_of "Yes" (ct_columns (crosstab view))) as [j|] eqn:Hj;
    [|discriminate].
  intros Heq.
  set (grouped := ct_rows (crosstab view)).
  set (full := take ("", []) grouped
                 (nargsort argsort (column_values j (crosstab view)) false)).
  assert (Ht : t = {| ct_columns := ct_columns (crosstab view);
                      ct_rows := firstn 10 full |}).
  { unfold bind, ret, head in Heq. cbn [ct_columns ct_rows] in Heq.
    unfold full, grouped. congruence. }
  subst t. cbn [ct_columns ct_rows].
  assert (Hperm : Permutation full grouped).
  { apply (sorted_rows_perm ("", []) (cell j) argsort Hc). }
  assert (Hlen : length grouped = length (country_options view)).
  { unfold grouped. cbn [crosstab ct_rows]. rewrite length_map.
    unfold sorted_unique, country_options.
    apply Permutation_length, isort_perm. }
  assert (Hnd : NoDup (map fst grouped)).
  { unfold grouped. cbn [crosstab ct_rows]. rewrite map_map. cbn [fst].
    rewrite map_id. apply sorted_unique_NoDup. }
  split; [reflexivity|]. split; [|split; [|split]].
  - rewrite length_firstn, (Permutation_length Hperm), Hlen. reflexivity.
  - assert (Hndf : NoDup (map fst full)).
    { apply (Permutation_NoDup (l := map fst grouped)); [|assumption].
      symmetry. now apply Permutation_map. }
    rewrite <- (firstn_skipn 10 full), map_app in Hndf.
    now apply NoDup_app_remove_r in Hndf.
  - rewrite Forall_forall. intros row Hrow.
    apply In_firstn in Hrow. apply (Permutation_in _ Hperm) in Hrow.
    split; [assumption|]. now apply crosstab_row_total.
  - intros Hle. rewrite firstn_all2; [assumption|].
    rewrite (Permutation_length Hperm), Hlen. assumption.
Qed.

Lemma family_history_by_country_rows_witness :
  let t := {| ct_columns := ["Yes"]; ct_rows := [("DE", [1]); ("US", [1])] |} in
  ct_columns t = ct_columns (crosstab two_tied)
  /\ length (ct_rows t) = Nat.min 10 (length (country_options two_tied))
  /\ NoDup (map fst (ct_rows t))
  /\ Forall (fun row =>
               In row (ct_rows (crosstab two_tied))
               /\ sumZ (snd row) = count_eq (fst row) (map country two_tied))
            (ct_rows t)
  /\ ((length (country_options two_tied) <= 10)%nat ->
      Permutation (ct_rows t) (ct_rows (crosstab two_tied))).
Proof.
  apply (family_history_by_country_rows stable_argsort two_tied).
  - exact stable_argsort_contract.
  - reflexivity.
Defined.

(** ** Monthly counts, continued *)

Lemma grid_months_NoDup first n :
  NoDup (map (fun i => first + Z.of_nat i) (seq 0 n)).
Proof.
  apply Finite.Injective_map_NoDup; [|apply seq_NoDup].
  intros i j H. lia.
Qed.

Lemma time_data_sum view :
  sumZ (map TimeData.treatment (time_data view)) = total_entries view.
Proof.
  destruct (time_data_grid view) as (first & n & Htd & Hrange & _).
  rewrite Htd, map_map. cbn [TimeData.treatment].
  rewrite <- (map_map (fun i => first + Z.of_nat i)
                      (fun k => count_in_month view k)).
  unfold count_in_month, total_entries.
  replace (Z.of_nat (length view))
    with (Z.of_nat (length (filter (fun _ : Row => true) view)))
    by now rewrite filter_true.
  apply (sum_filter_partition Z.eqb Z.eqb_eq
           (fun r => month_key (timestamp r)) (fun _ => true)).
  - apply grid_months_NoDup.
  - intros r Hr _. specialize (Hrange r Hr). apply in_map_iff.
    exists (Z.to_nat (month_key (timestamp r) - first)).
    split; [lia|]. apply in_seq. lia.
Qed.

(** X12: Every row of the view is counted in exactly one month: the monthly
    counts add up to the number of rows. *)
Theorem time_data_counts_total (view : DataFrame) :
  sumZ (map TimeData.treatment (time_data view)) = total_entries view
  /\ Forall (fun row => 0 <= TimeData.treatment row) (time_data view).
Proof.
  split; [apply time_data_sum|].
  destruct (time_data_grid view) as (first & n & Htd & _).
  rewrite Htd, Forall_forall. intros row Hrow. apply in_map_iff in Hrow.
  destruct Hrow as [i [<- _]]. cbn [TimeData.treatment].
  unfold count_in_month. lia.
Qed.

Lemma combine_map_r {A B} (h : A -> B) (l : list A) :
  combine l (map h l) = map (fun x => (x, h x)) l.
Proof. induction l; simpl; congruence. Qed.

Lemma time_data_nonempty view : view <> [] -> time_data view <> [].
Proof.
  intros Hne Htd0.
  destruct (time_data_grid view) as (first & n & Htd & Hrange & Hends).
  destruct view as [|r view']; [contradiction|].
  destruct Hends as (r1 & r2 & Hin1 & Hin2 & H1 & H2).
  pose proof (Hrange r2 Hin2) as Hr2.
  destruct n as [|n]; [lia|].
  rewrite Htd in Htd0. discriminate.
Qed.

Lemma LinearRegression_fit_returns X y :
  X <> [] ->
  exists coef,
    LinearRegression_fit X y
    = ret {| coef_ := coef; intercept_ := (meanQ y - coef * meanQ X)%Q |}.
Proof.
  intros Hne. destruct X as [|x X]; [contradiction|].
  unfold LinearRegression_fit. cbv zeta. eexists. reflexivity.
Qed.

(** X13: The trend is computed exactly when the view has a row.  Its table is the
    monthly table with one more column, and the added column is a straight
    line in month_index. *)
Theorem monthly_trend_defined (view : DataFrame) :
  match view with
  | [] => monthly_trend view = raise ValueError
  | _ :: _ =>
      exists model rows,
        monthly_trend view = ret rows
        /\ map (fun r => TimeData.mk (Trend.timestamp r) (Trend.treatment r)
                                     (Trend.month_index r)) rows
           = time_data view
        /\ Forall (fun r => Trend.predicted_treatment r
                            = (coef_ model * inject_Z (Trend.month_index r)
                               + intercept_ model)%Q) rows
  end.
Proof.
  destruct view as [|r0 view'] eqn:Hview; [reflexivity|]. rewrite <- Hview.
  assert (Hne : view <> []) by (rewrite Hview; discriminate).
  apply time_data_nonempty in Hne.
  unfold monthly_trend.
  set (td := time_data view) in *.
  set (X := map (fun r => inject_Z (TimeData.month_index r)) td).
  assert (HX : X <> []) by (unfold X; destruct td; [contradiction|discriminate]).
  destruct (LinearRegression_fit_returns
              X (map (fun r => inject_Z (TimeData.treatment r)) td) HX)
    as [coef ->].
  cbn [bind ret]. eexists _, _. split; [reflexivity|].
  unfold predict, X.
  rewrite (map_map (fun r => inject_Z (TimeData.month_index r))).
  rewrite combine_map_r, !map_map.
  cbn [fst snd Trend.timestamp Trend.treatment Trend.month_index
       Trend.predicted_treatment]. split.
  - rewrite <- (map_id td) at 2. apply map_ext. now intros [].
  - rewrite Forall_forall. intros r Hr. apply in_map_iff in Hr.
    destruct Hr as [r' [<- _]]. reflexivity.
Qed.

(** ** The fitted line, continued *)

Lemma inject_Z_of_nat_succ n :
  (inject_Z (Z.of_nat (S n)) == inject_Z (Z.of_nat n) + 1)%Q.
Proof. rewrite Nat2Z.inj_succ. unfold Z.succ. now rewrite inject_Z_plus. Qed.

Lemma inject_Z_of_nat_succ_nonzero n : ~ (inject_Z (Z.of_nat (S n)) == 0)%Q.
Proof. unfold Qeq. simpl. lia. Qed.

Lemma sumQ_map_inject_Z l : (sumQ (map inject_Z l) == inject_Z (sumZ l))%Q.
Proof.
  induction l as [|z l IH]; [reflexivity|].
  cbn [map sumQ sumZ fold_right]. fold (sumQ (map inject_Z l)). fold (sumZ l).
  rewrite IH, inject_Z_plus. reflexivity.
Qed.

Lemma sumQ_affine (c i : Q) X :
  (sumQ (map (fun x => c * x + i) X)
   == c * sumQ X + inject_Z (Z.of_nat (length X)) * i)%Q.
Proof.
  induction X as [|x X IH].
  - cbn. ring.
  - cbn [map sumQ fold_right length].
    fold (sumQ (map (fun x => c * x + i)%Q X)). fold (sumQ X).
    rewrite IH, inject_Z_of_nat_succ. ring.
Qed.

(** The two ways the slope is set, by whether the centred month indexes
    vanish. *)
Lemma LinearRegression_fit_cases X y :
  X <> [] ->
  let xm := meanQ X in
  let ym := meanQ y in
  let sxx := sumQ (map (fun x => x * x)%Q (map (fun x => x - xm)%Q X)) in
  let sxy := sumQ (map (fun p => fst p * snd p)%Q
                       (combine (map (fun x => x - xm)%Q X)
                                (map (fun v => v - ym)%Q y))) in
  exists coef,
    LinearRegression_fit X y
    = ret {| coef_ := coef; intercept_ := (ym - coef * xm)%Q |}
    /\ (((sxx == 0)%Q /\ coef = 0%Q)
        \/ (~ (sxx == 0)%Q /\ coef = (sxy / sxx)%Q)).
Proof.
  intros Hne. destruct X as [|x0 X0]; [contradiction|].
  cbv zeta. unfold LinearRegression_fit. cbv zeta.
  destruct (Qeq_bool _ 0) eqn:E; eexists; (split; [reflexivity|]).
  - left. split; [now apply Qeq_bool_iff | reflexivity].
  - right. split; [now apply Qeq_bool_neq | reflexivity].
Qed.

(** What [monthly_trend] returns on a view with rows, in terms of the fitted
    model. *)
Lemma monthly_trend_unfold view :
  view <> [] ->
  exists model,
    LinearRegression_fit
      (map (fun r => inject_Z (TimeData.month_index r)) (time_data view))
      (map (fun r => inject_Z (TimeData.treatment r)) (time_data view))
    = ret model
    /\ monthly_trend view
       = ret (map (fun r =>
                     Trend.mk (TimeData.timestamp r) (TimeData.treatment r)
                              (TimeData.month_index r)
                              (coef_ model * inject_Z (TimeData.month_index r)
                               + intercept_ model)%Q)
                  (time_data view)).
Proof.
  intros Hne. apply time_data_nonempty in Hne.
  unfold monthly_trend.
  set (td := time_data view) in *.
  set (X := map (fun r => inject_Z (TimeData.month_index r)) td).
  assert (HX : X <> []) by (unfold X; destruct td; [contradiction|discriminate]).
  destruct (LinearRegression_fit_returns
              X (map (fun r => inject_Z (TimeData.treatment r)) td) HX)
    as [coef Hfit].
  rewrite Hfit. eexists. split; [reflexivity|].
  cbn [bind ret]. unfold predict, X.
  rewrite (map_map (fun r => inject_Z (TimeData.month_index r))).
  rewrite combine_map_r, !map_map. reflexivity.
Qed.

(** X14: The fitted line balances the monthly counts: the predicted counts add up
    to the number of rows of the view, as the actual counts do. *)
Theorem monthly_trend_predicted_total (view : DataFrame) :
  view <> [] ->
  exists rows,
    monthly_trend view = ret rows
    /\ (sumQ (map Trend.predicted_treatment rows)
        == inject_Z (total_entries view))%Q.
Proof.
  intros Hne. pose proof (time_data_nonempty view Hne) as Htd.
  destruct (monthly_trend_unfold view Hne) as (model & Hfit & ->).
  eexists. split; [reflexivity|].
  rewrite map_map. cbn [Trend.predicted_treatment].
  set (td := time_data view) in *.
  set (X := map (fun r => inject_Z (TimeData.month_index r)) td) in *.
  set (y := map (fun r => inject_Z (TimeData.treatment r)) td) in *.
  assert (HX : X <> []) by (unfold X; destruct td; [contradiction|discriminate]).
  destruct (LinearRegression_fit_returns X y HX) as [coef Hfit'].
  rewrite Hfit' in Hfit. injection Hfit as <-. cbn [coef_ intercept_].
  rewrite <- (map_map (fun r => inject_Z (TimeData.month_index r))
                      (fun x => coef * x + (meanQ y - coef * meanQ X))%Q).
  fold X. rewrite sumQ_affine.
  rewrite <- time_data_sum. fold td.
  rewrite <- sumQ_map_inject_Z, map_map. fold y.
  unfold meanQ.
  assert (Hlen : length y = length X) by (unfold y, X; now rewrite !length_map).
  rewrite Hlen.
  destruct X as [|x0 X0]; [contradiction|].
  pose proof (inject_Z_of_nat_succ_nonzero (length X0)) as Hn.
  set (n := inject_Z (Z.of_nat (length (x0 :: X0)))) in *.
  field. exact Hn.
Qed.

Lemma monthly_trend_predicted_total_witness :
  exists rows,
    monthly_trend two_tied = ret rows
    /\ (sumQ (map Trend.predicted_treatment rows)
        == inject_Z (total_entries two_tied))%Q.
Proof. apply (monthly_trend_predicted_total two_tied). discriminate. Defined.

Lemma sum_squares_nonneg l : (0 <= sumQ (map (fun x => x * x) l))%Q.
Proof.
  induction l as [|x l IH]; [cbn; lra|].
  cbn [map sumQ fold_right]. fold (sumQ (map (fun x => x * x)%Q l)). nra.
Qed.

Lemma sum_squares_zero l :
  (sumQ (map (fun x => x * x) l) == 0)%Q -> Forall (fun x => x == 0)%Q l.
Proof.
  induction l as [|x l IH]; intros H; constructor.
  - cbn [map sumQ fold_right] in H. fold (sumQ (map (fun x => x * x)%Q l)) in H.
    pose proof (sum_squares_nonneg l).
    assert (Hx : (x * x == 0)%Q) by nra.
    now destruct (Qmult_integral _ _ Hx).
  - apply IH.
    cbn [map sumQ fold_right] in H. fold (sumQ (map (fun x => x * x)%Q l)) in H.
    pose proof (sum_squares_nonneg l). nra.
Qed.

Section OnALine.
Variables a b : Q.

Let on_line (x v : Q) : Prop := (v == a + b * x)%Q.

Lemma line_sum X y :
  Forall2 on_line X y ->
  (sumQ y == inject_Z (Z.of_nat (length X)) * a + b * sumQ X)%Q.
Proof.
  induction 1 as [|x v X y Hxv HF IH].
  - cbn. ring.
  - cbn [sumQ fold_right length]. fold (sumQ y). fold (sumQ X).
    rewrite IH, inject_Z_of_nat_succ. unfold on_line in Hxv. rewrite Hxv. ring.
Qed.

Lemma line_sxy X y xm ym :
  (ym == a + b * xm)%Q ->
  Forall2 on_line X y ->
  (sumQ (map (fun p => fst p * snd p)
             (combine (map (fun x => x - xm) X) (map (fun v => v - ym) y)))
   == b * sumQ (map (fun x => x * x) (map (fun x => x - xm) X)))%Q.
Proof.
  intros Hm. induction 1 as [|x v X y Hxv HF IH].
  - cbn. ring.
  - cbn [map combine sumQ fold_right fst snd].
    fold (sumQ (map (fun p => fst p * snd p)%Q
                    (combine (map (fun x => x - xm)%Q X)
                             (map (fun v => v - ym)%Q y)))).
    fold (sumQ (map (fun x => x * x)%Q (map (fun x => x - xm)%Q X))).
    rewrite IH. unfold on_line in Hxv. rewrite Hxv, Hm. ring.
Qed.

(** Least squares recovers a line: when the responses lie on a line over the
    predictors, the fitted model predicts every one of them. *)
Lemma LinearRegression_fit_on_line X y :
  X <> [] ->
  Forall2 on_line X y ->
  exists model,
    LinearRegression_fit X y = ret model
    /\ Forall (fun x => coef_ model * x + intercept_ model == a + b * x)%Q X.
Proof.
  intros Hne HF.
  destruct (LinearRegression_fit_cases X y Hne) as [coef [Hfit Hcases]].
  cbv zeta in Hcases.
  exists {| coef_ := coef; intercept_ := (meanQ y - coef * meanQ X)%Q |}.
  split; [assumption|]. cbn [coef_ intercept_].
  assert (Hmean : (meanQ y == a + b * meanQ X)%Q).
  { unfold meanQ. rewrite (line_sum X y HF).
    rewrite <- (Forall2_length HF).
    destruct X as [|x0 X0]; [contradiction|].
    pose proof (inject_Z_of_nat_succ_nonzero (length X0)) as Hn.
    set (n := inject_Z (Z.of_nat (length (x0 :: X0)))) in *.
    field. exact Hn. }
  destruct Hcases as [[Hz ->]|[Hnz ->]].
  - apply sum_squares_zero in Hz. rewrite Forall_map in Hz.
    eapply Forall_impl; [|exact Hz]. intros x Hx. cbv beta in Hx.
    rewrite Hmean.
    assert (Hxm : (x == meanQ X)%Q) by lra.
    rewrite Hxm. ring.
  - pose proof (line_sxy X y (meanQ X) (meanQ y) Hmean HF) as Hsxy.
    rewrite Forall_forall. intros x _.
    rewrite Hsxy, Hmean. field. exact Hnz.
Qed.
End OnALine.

Lemma Forall2_map_same {A B C} (R : B -> C -> Prop) (f : A -> B) (g : A -> C) l :
  (forall x, In x l -> R (f x) (g x)) -> Forall2 R (map f l) (map g l).
Proof.
  induction l as [|x l IH]; intros H; simpl; constructor.
  - apply H. now left.
  - apply IH. intros y Hy. apply H. now right.
Qed.

(** X15: When the monthly counts of a view lie on a line over month_index (a
    steady rise or fall, or a single month), the trend reproduces every
    count: predicted equals actual in each row. *)
Theorem monthly_trend_exact_on_linear_counts (view : DataFrame) (a b : Q) :
  view <> [] ->
  (forall row, In row (time_data view) ->
               (inject_Z (TimeData.treatment row)
                == a + b * inject_Z (TimeData.month_index row))%Q) ->
  exists rows,
    monthly_trend view = ret rows
    /\ length rows = length (time_data view)
    /\ Forall (fun r => Trend.predicted_treatment r
                        == inject_Z (Trend.treatment r))%Q rows.
Proof.
  intros Hne Hline. pose proof (time_data_nonempty view Hne) as Htd.
  destruct (monthly_trend_unfold view Hne) as (model & Hfit & ->).
  eexists. split; [reflexivity|]. split; [apply length_map|].
  set (td := time_data view) in *.
  set (X := map (fun r => inject_Z (TimeData.month_index r)) td) in *.
  set (y := map (fun r => inject_Z (TimeData.treatment r)) td) in *.
  assert (HX : X <> []) by (unfold X; destruct td; [contradiction|discriminate]).
  assert (HF : Forall2 (fun x v => v == a + b * x)%Q X y).
  { unfold X, y. apply Forall2_map_same. exact Hline. }
  destruct (LinearRegression_fit_on_line a b X y HX HF) as (model' & Hfit' & Hall).
  rewrite Hfit' in Hfit. injection Hfit as <-.
  rewrite Forall_forall in *. intros r Hr. apply in_map_iff in Hr.
  destruct Hr as [r' [<- Hr']].
  cbn [Trend.predicted_treatment Trend.treatment].
  rewrite (Hline r' Hr'). apply Hall. unfold X.
  now apply (in_map (fun r => inject_Z (TimeData.month_index r))).
Qed.

(** The line through the counts 3, 5, 7 of three consecutive months. *)
Lemma monthly_trend_exact_on_linear_counts_witness :
  exists rows,
    monthly_trend rising_view = ret rows
    /\ length rows = length (time_data rising_view)
    /\ Forall (fun r => Trend.predicted_treatment r
                        == inject_Z (Trend.treatment r))%Q rows.
Proof.
  apply (monthly_trend_exact_on_linear_counts rising_view 3 2).
  - discriminate.
  - intros row Hrow. vm_compute in Hrow.
    destruct Hrow as [<-|[<-|[<-|[]]]]; reflexivity.
Defined.

(** ** The metrics, continued *)

Lemma Q_ratio_bounds (c n : Z) :
  0 <= c <= n -> 0 < n ->
  (0 <= inject_Z c / inject_Z n * 100 <= 100)%Q.
Proof.
  intros Hc Hn.
  assert (Hn' : (0 < inject_Z n)%Q)
    by (change 0%Q with (inject_Z 0); rewrite <- Zlt_Qlt; exact Hn).
  assert (H0 : (0 <= inject_Z c / inject_Z n)%Q).
  { apply Qle_shift_div_l; [assumption|]. rewrite Qmult_0_l.
    change 0%Q with (inject_Z 0). rewrite <- Zle_Qle. lia. }
  assert (H1 : (inject_Z c / inject_Z n <= 1)%Q).
  { apply Qle_shift_div_r; [assumption|]. rewrite Qmult_1_l.
    rewrite <- Zle_Qle. lia. }
  split; lra.
Qed.

Lemma bool_mean_nonempty mask :
  mask <> [] ->
  bool_mean mask
  = Fin (inject_Z (Z.of_nat (length (filter (fun b => b) mask)))
         / inject_Z (Z.of_nat (length mask))).
Proof. destruct mask; [contradiction | reflexivity]. Qed.

(** X16: In exact arithmetic (the rounding of the float division and
    multiplication of line 96 left aside), on a view with rows the treatment
    rate is 100 times the share of rows with treatment "Yes", and so lies
    between 0 and 100. *)
Theorem treatment_rate_percentage (view : DataFrame) :
  view <> [] ->
  exists q,
    treatment_rate view = Fin q
    /\ (0 <= q <= 100)%Q
    /\ (q * inject_Z (total_entries view)
        == 100 * inject_Z (Z.of_nat
                             (length (filter (fun r => (treatment r =? "Yes")%string)
                                             view))))%Q.
Proof.
  intros Hne. unfold treatment_rate, total_entries.
  rewrite bool_mean_nonempty by (destruct view; [contradiction | discriminate]).
  rewrite filter_map_swap, !length_map.
  cbn [pymul]. eexists. split; [reflexivity|].
  pose proof (filter_length_le (fun r => (treatment r =? "Yes")%string) view)
    as Hle.
  set (c := Z.of_nat (length (filter _ view))) in *.
  set (n := Z.of_nat (length view)).
  assert (Hn : 0 < n) by (unfold n; destruct view; [contradiction | cbn; lia]).
  split.
  - apply Q_ratio_bounds; [unfold c, n; lia | assumption].
  - field. intros H. unfold Qeq in H. cbn in H. lia.
Qed.

Lemma treatment_rate_percentage_witness :
  exists q,
    treatment_rate survey = Fin q
    /\ (0 <= q <= 100)%Q
    /\ (q * inject_Z (total_entries survey)
        == 100 * inject_Z (Z.of_nat
                             (length (filter (fun r => (treatment r =? "Yes")%string)
                                             survey))))%Q.
Proof. apply (treatment_rate_percentage survey). discriminate. Defined.




(** ** The run as a whole, continued *)

Lemma family_history_by_country_cases argsort view :
  (family_history_by_country argsort view = raise (KeyError "Yes")
   /\ forall r, In r view -> family_history r <> "Yes")
  \/ (exists t, family_history_by_country argsort view = ret t
                /\ exists r, In r view /\ family_history r = "Yes").
Proof.
  destruct (index_of "Yes" (ct_columns (crosstab view))) as [j|] eqn:Hj.
  - right. unfold family_history_by_country, sort_values. rewrite Hj.
    eexists. split; [reflexivity|].
    apply crosstab_columns_In. apply index_of_Some in Hj.
    destruct Hj as [Hlt <-]. now apply nth_In.
  - left. apply index_of_None in Hj.
    assert (Hno : forall r, In r view -> family_history r <> "Yes").
    { intros r Hr Hy. apply Hj, crosstab_columns_In. now exists r. }
    split; [now apply family_history_no_yes_raises | exact Hno].
Qed.

(** The ways a run can end, by the dataset, the view and the KPI feature. *)
Lemma run_cases argsort df selected_countries selected_genders age_filter
    selected_kpi :
  let view := filtered_data df selected_countries selected_genders age_filter in
  match run argsort df selected_countries selected_genders age_filter
            selected_kpi with
  | inl e =>
      (e = ValueError /\ df = [])
      \/ (e = KeyError "Yes" /\ df <> []
          /\ forall r, In r view -> family_history r <> "Yes")
      \/ (e = TypeError /\ selected_kpi <> kpi_age
          /\ exists r, In r view /\ family_history r = "Yes")
  | inr d =>
      selected_kpi = kpi_age
      /\ (exists r, In r view /\ family_history r = "Yes")
      /\ d_filtered_data d = view
      /\ d_country_counts d = country_counts argsort view
      /\ family_history_by_country argsort view
         = ret (d_family_history_by_country d)
      /\ d_total_entries d = total_entries view
      /\ kpi_average view kpi_age = ret (d_kpi_average d)
      /\ d_treatment_rate d = treatment_rate view
      /\ monthly_trend view = ret (d_time_data d)
  end.
Proof.
  cbv zeta. unfold run.
  destruct df as [|r0 df'] eqn:Hdf.
  { cbn. left. split; reflexivity. }
  rewrite <- Hdf.
  assert (Hdne : df <> []) by (rewrite Hdf; discriminate).
  destruct (age_bounds_nonempty df Hdne) as [b ->]. cbn [bind ret].
  set (view := filtered_data df selected_countries selected_genders age_filter).
  destruct (family_history_by_country_cases argsort view)
    as [[Hfh Hno]|[t [Hfh Hyes]]]; rewrite Hfh; cbn [bind raise ret].
  - right. left. split; [reflexivity|]. split; assumption.
  - assert (Hne : view <> []).
    { destruct Hyes as [r [Hr _]]. intros He. rewrite He in Hr. contradiction. }
    destruct (monthly_trend_unfold view Hne) as (model & _ & Htrend).
    destruct selected_kpi.
    + destruct (kpi_average view kpi_age) as [e|avg] eqn:Havg.
      * exfalso. unfold kpi_average, getitem, series_mean in Havg.
        destruct (map age view); discriminate.
      * cbn [bind]. rewrite Htrend. cbn [bind ret].
        cbn [d_filtered_data d_country_counts d_family_history_by_country
             d_total_entries d_kpi_average d_treatment_rate d_time_data].
        repeat split; try reflexivity; assumption.
    + clear Htrend. pose proof (kpi_average_categorical view kpi_treatment) as Hk.
      destruct view as [|r1 view']; [contradiction|].
      rewrite Hk by discriminate. cbn [bind raise]. right. right.
      split; [reflexivity|]. split; [discriminate | assumption].
    + clear Htrend.
      pose proof (kpi_average_categorical view kpi_family_history) as Hk.
      destruct view as [|r1 view']; [contradiction|].
      rewrite Hk by discriminate. cbn [bind raise]. right. right.
      split; [reflexivity|]. split; [discriminate | assumption].
Qed.

(** X18: How a run ends.  It raises [ValueError] exactly when the dataset is
    empty (the slider bounds of line 37); on a dataset with rows it raises
    [KeyError] when the view has no "Yes" family history (the empty view
    included), [TypeError] when it has one and a text column is the KPI
    feature, and otherwise completes with every part computed from the one
    filtered view.  The trend fit is never what ends a run. *)
Theorem run_outcome (argsort : list Z -> list nat) (df : DataFrame)
    (selected_countries selected_genders : list string) (age_filter : Z * Z)
    (selected_kpi : kpi_feature) :
  let view := filtered_data df selected_countries selected_genders age_filter in
  match run argsort df selected_countries selected_genders age_filter
            selected_kpi with
  | inl e =>
      (e = ValueError /\ df = [])
      \/ (e = KeyError "Yes" /\ df <> []
          /\ forall r, In r view -> family_history r <> "Yes")
      \/ (e = TypeError /\ selected_kpi <> kpi_age
          /\ exists r, In r view /\ family_history r = "Yes")
  | inr d =>
      selected_kpi = kpi_age
      /\ (exists r, In r view /\ family_history r = "Yes")
      /\ d_filtered_data d = view
      /\ d_country_counts d = country_counts argsort view
      /\ family_history_by_country argsort view
         = ret (d_family_history_by_country d)
      /\ d_total_entries d = total_entries view
      /\ kpi_average view kpi_age = ret (d_kpi_average d)
      /\ d_treatment_rate d = treatment_rate view
      /\ monthly_trend view = ret (d_time_data d)
  end.
Proof. apply run_cases. Qed.

(** C8 (defect of the code): with treatment or family_history selected as
    KPI feature, a run whose view has a "Yes" family history (so that the
    overview tab is passed) ends at line 95 in an uncaught [TypeError]; no
    average is computed, and nothing the script does turns the exception
    into a fallback. *)
Theorem run_text_kpi_ends_in_TypeError (argsort : list Z -> list nat)
    (df : DataFrame) (selected_countries selected_genders : list string)
    (age_filter : Z * Z) (selected_kpi : kpi_feature) :
  selected_kpi <> kpi_age ->
  (exists r,
     In r (filtered_data df selected_countries selected_genders age_filter)
     /\ family_history r = "Yes") ->
  run argsort df selected_countries selected_genders age_filter selected_kpi
  = raise TypeError.
Proof.
  intros Hk [r [Hr Hy]].
  pose proof (run_cases argsort df selected_countries selected_genders
                age_filter selected_kpi) as H.
  cbv zeta in H.
  destruct (run argsort df selected_countries selected_genders age_filter
                selected_kpi) as [e|d].
  - destruct H as [[-> Hdf]|[[-> [_ Hno]]|[-> _]]].
    + subst df. destruct Hr.
    + exfalso. exact (Hno r Hr Hy).
    + reflexivity.
  - destruct H as [Hage _]. contradiction.
Qed.

(** C8 on the five sample answers with the treatment column selected. *)
Lemma run_text_kpi_ends_in_TypeError_witness :
  run stable_argsort survey [] [] (19, 60) kpi_treatment = raise TypeError.
Proof.
  apply (run_text_kpi_ends_in_TypeError stable_argsort survey [] [] (19, 60)
           kpi_treatment).
  - discriminate.
  - exists (mkRow "US" "Female" 45 "No" "Yes" (mkTimestamp 2014 8 27 41400)).
    split; [right; now left | reflexivity].
Defined.

(** ** The two overview tables together *)

(** X19: The map and the bar chart are fed consistent numbers: for every country
    of the grouped table, the cells of its row add up to the entry count
    that the table of entries by country holds for it. *)
Theorem crosstab_agrees_with_country_counts (argsort : list Z -> list nat)
    (view : DataFrame) :
  argsort_contract argsort ->
  Forall (fun row => In (fst row, sumZ (snd row)) (country_counts argsort view))
         (ct_rows (crosstab view))
  /\ Permutation (map fst (country_counts argsort view))
                 (map fst (ct_rows (crosstab view))).
Proof.
  intros Hc.
  pose proof (value_counts_perm argsort (map country view) Hc) as Hp.
  split.
  - rewrite Forall_forall. intros row Hrow.
    destruct (crosstab_row_total view row Hrow) as (_ & _ & ->).
    unfold country_counts.
    apply (Permutation_in _ (Permutation_sym Hp)).
    apply in_map_iff. exists (fst row). split; [reflexivity|].
    cbn [crosstab ct_rows] in Hrow. apply in_map_iff in Hrow.
    destruct Hrow as [c [<- Hin]]. cbn [fst].
    unfold sorted_unique in Hin.
    apply (Permutation_in _ (isort_perm String.leb _)) in Hin. exact Hin.
  - unfold country_counts. rewrite (Permutation_map fst Hp), map_map.
    cbn [fst crosstab ct_rows]. rewrite !map_map. cbn [fst]. rewrite !map_id.
    symmetry. apply isort_perm.
Qed.

Lemma crosstab_agrees_with_country_counts_witness :
  Forall (fun row => In (fst row, sumZ (snd row))
                        (country_counts stable_argsort survey))
         (ct_rows (crosstab survey))
  /\ Permutation (map fst (country_counts stable_argsort survey))
                 (map fst (ct_rows (crosstab survey))).
Proof.
  apply (crosstab_agrees_with_country_counts stable_argsort survey).
  exact stable_argsort_contract.
Defined.
